(** * The Anthropic pipeline adapter ([pipelines/anthropic.py])

    A shallow embedding of the message adapter: system-message extraction,
    content-block normalisation with its two image limits, request
    assembly, and the two response decoders (one JSON answer, or a stream
    of server-sent events), followed by the properties of each.

    Python values are dynamically typed, so the embedding works over one
    type [pyval] of JSON-like values and every primitive that Python can
    refuse (subscripting, [.get], [len], ...) returns in the error monad
    [py], raising the exception class CPython raises. *)

From Stdlib Require Import ZArith QArith Lqa String Ascii List DecimalString.
From stdpp Require Import base option gmap strings list fin_maps.

#[local] Set Warnings "-register-all".
#[local] Open Scope Z_scope.

(** ** Python values *)

(** JSON-shaped Python values.  Dictionaries have string keys (they come
    from JSON documents) and are finite maps.  A [float] is carried as the
    rational it denotes: the adapter only passes floats through, except for
    the image-size sum, whose terms are multiples of 1/4 and therefore
    exact in binary floating point for every payload below 2^51 bytes. *)
Inductive pyval :=
| PNone
| PBool (b : bool)
| PInt (z : Z)
| PFloat (q : Q)
| PStr (s : string)
| PList (l : list pyval)
| PDict (d : gmap string pyval).

(** ** Exceptions and the error monad *)

(** The exception classes the adapter can meet.  All of them derive from
    [Exception], so a bare [except Exception] catches every constructor.
    [KeyError] carries the [repr] of the missing key, which is what
    [str(e)] prints; [HTTPFailure] stands for whatever the HTTP client
    raises (connection errors, time-outs, a body that cannot be read). *)
Inductive exn :=
| Exception (msg : string)
| ValueError (msg : string)
| JSONDecodeError (msg : string)
| KeyError (key_repr : string)
| TypeError (msg : string)
| AttributeError (msg : string)
| IndexError (msg : string)
| RecursionError (msg : string)
| HTTPFailure (msg : string).

(** [str(e)] *)
Definition str_exn (e : exn) : string :=
  match e with
  | Exception m | ValueError m | JSONDecodeError m | TypeError m
  | AttributeError m | IndexError m | RecursionError m | HTTPFailure m => m
  | KeyError k => k
  end.

Inductive py (A : Type) :=
| Ret (a : A)
| Raise (e : exn).
Arguments Ret {A} a.
Arguments Raise {A} e.

#[global] Instance py_ret : MRet py := @Ret.
#[global] Instance py_bind : MBind py := λ A B f m,
  match m with
  | Ret a => f a
  | Raise e => Raise e
  end.

(** [try: body except Exception as e: handler e] *)
Definition try_except {A} (body : py A) (handler : exn → py A) : py A :=
  match body with
  | Ret a => Ret a
  | Raise e => handler e
  end.

(** ** Built-in operations on values *)

(** [type(v).__name__] *)
Definition type_name (v : pyval) : string :=
  match v with
  | PNone => "NoneType"
  | PBool _ => "bool"
  | PInt _ => "int"
  | PFloat _ => "float"
  | PStr _ => "str"
  | PList _ => "list"
  | PDict _ => "dict"
  end.

(** [repr] of a key that needs no escaping (all keys the adapter uses). *)
Definition repr_key (k : string) : string := "'" +:+ k +:+ "'".

(** [str(n)] for an integer *)
Definition str_int (n : Z) : string := NilZero.string_of_int (Z.to_int n).

(** Truth value of an object, as [if v:] tests it. *)
Definition py_truthy (v : pyval) : bool :=
  match v with
  | PNone => false
  | PBool b => b
  | PInt z => negb (z =? 0)
  | PFloat q => negb (Qeq_bool q 0)
  | PStr s => negb (String.eqb s "")
  | PList l => match l with [] => false | _ => true end
  | PDict d => negb (bool_decide (d = ∅))
  end.

(** [v == "literal"] *)
Definition py_eq_str (v : pyval) (s : string) : bool :=
  match v with
  | PStr s' => String.eqb s' s
  | _ => false
  end.

(** [isinstance(v, list)] *)
Definition is_list (v : pyval) : bool :=
  match v with
  | PList _ => true
  | _ => false
  end.

Definition not_subscriptable (v : pyval) : exn :=
  TypeError ("'" +:+ type_name v +:+ "' object is not subscriptable").

Definition no_attribute (v : pyval) (attr : string) : exn :=
  AttributeError ("'" +:+ type_name v +:+ "' object has no attribute '" +:+ attr +:+ "'").

(** [v["k"]] with a string key *)
Definition py_getitem (v : pyval) (k : string) : py pyval :=
  match v with
  | PDict d =>
      match d !! k with
      | Some x => Ret x
      | None => Raise (KeyError (repr_key k))
      end
  | PList _ => Raise (TypeError "list indices must be integers or slices, not str")
  | PStr _ => Raise (TypeError "string indices must be integers, not 'str'")
  | _ => Raise (not_subscriptable v)
  end.

(** [v[0]] *)
Definition py_getitem0 (v : pyval) : py pyval :=
  match v with
  | PList l =>
      match l with
      | x :: _ => Ret x
      | [] => Raise (IndexError "list index out of range")
      end
  | PStr s =>
      match s with
      | String c _ => Ret (PStr (String c ""))
      | EmptyString => Raise (IndexError "string index out of range")
      end
  | PDict _ => Raise (KeyError "0")
  | _ => Raise (not_subscriptable v)
  end.

(** [v.get("k", default)] *)
Definition py_get (v : pyval) (k : string) (dflt : pyval) : py pyval :=
  match v with
  | PDict d => Ret (default dflt (d !! k))
  | _ => Raise (no_attribute v "get")
  end.

(** [len(v)] *)
Definition py_len (v : pyval) : py Z :=
  match v with
  | PStr s => Ret (Z.of_nat (String.length s))
  | PList l => Ret (Z.of_nat (length l))
  | PDict d => Ret (Z.of_nat (size d))
  | _ => Raise (TypeError ("object of type '" +:+ type_name v +:+ "' has no len()"))
  end.

(** [v.startswith("literal")] *)
Definition py_startswith (v : pyval) (p : string) : py bool :=
  match v with
  | PStr s => Ret (String.prefix p s)
  | _ => Raise (no_attribute v "startswith")
  end.

(** [needle in s] on strings: substring test *)
Fixpoint str_contains (needle s : string) : bool :=
  String.prefix needle s ||
  match s with
  | String _ s' => str_contains needle s'
  | EmptyString => false
  end.

(** ["k" in v] *)
Definition py_contains (k : string) (v : pyval) : py bool :=
  match v with
  | PDict d => Ret (bool_decide (is_Some (d !! k)))
  | PList l => Ret (existsb (λ x, py_eq_str x k) l)
  | PStr s => Ret (str_contains k s)
  | _ => Raise (TypeError ("argument of type '" +:+ type_name v +:+ "' is not iterable"))
  end.

(** [s.split(sep)] for a one-character separator: every occurrence cuts. *)
Fixpoint split (sep : ascii) (s : string) : list string :=
  match s with
  | EmptyString => [""]
  | String c s' =>
      if Ascii.eqb c sep then "" :: split sep s'
      else match split sep s' with
           | h :: t => String c h :: t
           | [] => [String c ""]
           end
  end.

(** [s.split(sep, 1)]: only the first occurrence cuts. *)
Fixpoint split1 (sep : ascii) (s : string) : list string :=
  match s with
  | EmptyString => [""]
  | String c s' =>
      if Ascii.eqb c sep then [""; s']
      else match split1 sep s' with
           | h :: t => String c h :: t
           | [] => [String c ""]
           end
  end.

(** [v.split(sep, 1)] on a value *)
Definition py_split1 (v : pyval) (sep : ascii) : py (list string) :=
  match v with
  | PStr s => Ret (split1 sep s)
  | _ => Raise (no_attribute v "split")
  end.

(** [a, b = parts] *)
Definition unpack2 (parts : list string) : py (string * string) :=
  match parts with
  | [a; b] => Ret (a, b)
  | _ :: _ :: _ :: _ => Raise (ValueError "too many values to unpack (expected 2)")
  | _ =>
      Raise (ValueError ("not enough values to unpack (expected 2, got "
                         +:+ str_int (Z.of_nat (length parts)) +:+ ")"))
  end.

(** [parts[i]] on a list of strings *)
Definition index (parts : list string) (i : nat) : py string :=
  match parts !! i with
  | Some s => Ret s
  | None => Raise (IndexError "list index out of range")
  end.

(** ** System-message extraction *)

(** [pop_system_message(messages)]: the pair (system content or [None],
    remaining turns). *)
Definition pop_system_message (messages : list pyval) : py (pyval * list pyval) :=
  match messages with
  | [] => Ret (PNone, messages)
  | first :: rest =>
      role ← py_getitem first "role";
      if py_eq_str role "system" then
        content ← py_getitem first "content";
        Ret (content, rest)
      else Ret (PNone, messages)
  end.

(** ** Configuration *)

(** [Pipeline.Valves]: the configurable limits and defaults. *)
Record Valves := {
  ANTHROPIC_API_KEY : string;
  MAX_IMAGES : Z;
  MAX_IMAGE_SIZE_MB : Z;
  DEFAULT_MAX_TOKENS : Z;
  DEFAULT_TEMPERATURE : Q;
  DEFAULT_TOP_K : Z;
  DEFAULT_TOP_P : Q
}.

(** The values of the class definition, with the key read from the
    environment. *)
Definition default_valves (api_key : string) : Valves := {|
  ANTHROPIC_API_KEY := api_key;
  MAX_IMAGES := 5;
  MAX_IMAGE_SIZE_MB := 100;
  DEFAULT_MAX_TOKENS := 4096;
  DEFAULT_TEMPERATURE := 8 # 10;
  DEFAULT_TOP_K := 40;
  DEFAULT_TOP_P := 9 # 10
|}.

(** The adapter object: its valves and the headers cached from them. *)
Record Pipeline := {
  valves : Valves;
  headers : gmap string string
}.

Definition base_url : string := "https://api.anthropic.com/v1/messages".

(** [update_headers] *)
Definition update_headers (self : Pipeline) : Pipeline := {|
  valves := valves self;
  headers := {[ "anthropic-version" := "2023-06-01";
                "content-type" := "application/json";
                "x-api-key" := ANTHROPIC_API_KEY (valves self) ]}
|}.

(** [__init__] *)
Definition init (api_key : string) : Pipeline :=
  update_headers {| valves := default_valves api_key; headers := ∅ |}.

(** ** Content blocks *)

Definition text_block (text : pyval) : pyval :=
  PDict {[ "type" := PStr "text"; "text" := text ]}.

Definition base64_image (media_type base64_data : string) : pyval :=
  PDict {[ "type" := PStr "image";
           "source" := PDict {[ "type" := PStr "base64";
                                "media_type" := PStr media_type;
                                "data" := PStr base64_data ]} ]}.

Definition url_image (url : pyval) : pyval :=
  PDict {[ "type" := PStr "image";
           "source" := PDict {[ "type" := PStr "url"; "url" := url ]} ]}.

(** The body of the [try] in [process_image]. *)
Definition process_image_try (image_data : pyval) : py pyval :=
  url ← py_getitem image_data "url";
  is_data ← py_startswith url "data:image";
  if is_data : bool then
    parts ← py_split1 url ",";
    '(mime_type, base64_data) ← unpack2 parts;
    after_colon ← index (split ":" mime_type) 1;
    media_type ← index (split ";" after_colon) 0;
    Ret (base64_image media_type base64_data)
  else
    Ret (url_image url).

(** [process_image(image_data)]: any failure resurfaces as a [ValueError]. *)
Definition process_image (image_data : pyval) : py pyval :=
  try_except (process_image_try image_data)
    (λ e, Raise (ValueError ("Invalid image data: " +:+ str_exn e))).

(** ** Normalisation of the turns *)

(** The two counters the loops of [pipe] carry across items and turns. *)
Record counters := {
  image_count : Z;
  total_image_size : Q
}.

Definition counters0 : counters := {| image_count := 0; total_image_size := 0 |}.

Definition too_many_images (V : Valves) : exn :=
  ValueError ("Maximum of " +:+ str_int (MAX_IMAGES V) +:+ " images per API call exceeded").

Definition images_too_large (V : Valves) : exn :=
  ValueError ("Total size of images exceeds " +:+ str_int (MAX_IMAGE_SIZE_MB V) +:+ "MB limit").

(** [a > b] on rationals *)
Definition Qgtb (a b : Q) : bool := negb (Qle_bool a b).

(** The size bookkeeping done after an image has been converted: only a
    base64 source counts, for [len(data) * 3 / 4] bytes. *)
Definition account_image (V : Valves) (total : Q) (processed_image : pyval) : py Q :=
  source ← py_getitem processed_image "source";
  source_type ← py_getitem source "type";
  if py_eq_str source_type "base64" then
    data ← py_getitem source "data";
    n ← py_len data;
    let image_size := (inject_Z (n * 3) / 4)%Q in
    let total := (total + image_size)%Q in
    if Qgtb total (inject_Z (MAX_IMAGE_SIZE_MB V * 1024 * 1024)) then
      Raise (images_too_large V)
    else Ret total
  else Ret total.

(** One iteration of the inner loop: the counters afterwards and the
    blocks appended to [processed_content]. *)
Definition process_item (V : Valves) (st : counters) (item : pyval)
  : py (counters * list pyval) :=
  type ← py_getitem item "type";
  if py_eq_str type "text" then
    text ← py_getitem item "text";
    Ret (st, [text_block text])
  else if py_eq_str type "image_url" then
    if MAX_IMAGES V <=? image_count st then Raise (too_many_images V)
    else
      image_data ← py_getitem item "image_url";
      processed_image ← process_image image_data;
      total ← account_image V (total_image_size st) processed_image;
      Ret ({| image_count := image_count st + 1; total_image_size := total |},
           [processed_image])
  else Ret (st, []).

(** [for item in message["content"]] *)
Fixpoint process_items (V : Valves) (st : counters) (items : list pyval)
  : py (counters * list pyval) :=
  match items with
  | [] => Ret (st, [])
  | item :: rest =>
      '(st, blocks) ← process_item V st item;
      '(st, more) ← process_items V st rest;
      Ret (st, blocks ++ more)
  end.

(** The [processed_content] of one turn. *)
Definition normalize_content (V : Valves) (st : counters) (message : pyval)
  : py (counters * list pyval) :=
  content ← py_get message "content" PNone;
  match content with
  | PList items => process_items V st items
  | _ =>
      text ← py_get message "content" (PStr "");
      Ret (st, [text_block text])
  end.

(** One iteration of the outer loop: the processed turn. *)
Definition process_message (V : Valves) (st : counters) (message : pyval)
  : py (counters * pyval) :=
  '(st, processed_content) ← normalize_content V st message;
  role ← py_getitem message "role";
  Ret (st, PDict {[ "role" := role; "content" := PList processed_content ]}).

(** [for message in messages] *)
Fixpoint process_messages (V : Valves) (st : counters) (messages : list pyval)
  : py (counters * list pyval) :=
  match messages with
  | [] => Ret (st, [])
  | message :: rest =>
      '(st, processed) ← process_message V st message;
      '(st, more) ← process_messages V st rest;
      Ret (st, processed :: more)
  end.

(** ** The world outside the adapter *)

(** A server-sent event, seen through [json.loads(event.data)]: the
    decoder rejects the data as not being JSON (with its message), or it
    gives up on it with another exception (a [RecursionError] on data
    nested too deep, a [ValueError] on an integer beyond the digit limit),
    or it yields a value. *)
Inductive event :=
| NotJSON (msg : string)
| Unloadable (e : exn)
| JSON (data : pyval).

(** What the HTTP client hands back for one request.  [events] are the
    events [client.events()] delivers; [broken], when set, is the transport
    failure the iterator raises after them. *)
Record response := {
  status_code : Z;
  text : string;
  json : py pyval;
  events : list event;
  broken : option exn
}.

Inductive http_outcome :=
| Failed (e : exn)
| Response (r : response).

(** The collaborators the adapter is run against: the interpreter's
    [repr] of a non-string value, and [requests.post(url, headers=..,
    json=.., stream=..)]. *)
Record runtime := {
  py_repr : pyval → string;
  requests_post : string → gmap string string → gmap string pyval → bool → http_outcome
}.

(** [str(v)] *)
Definition py_str (rt : runtime) (v : pyval) : string :=
  match v with
  | PStr s => s
  | _ => py_repr rt v
  end.

(** ** Request assembly *)

(** [body.pop(key, None)] for the three bookkeeping keys.  The caller's
    dictionary is updated in place; the adapter itself only reads the
    cleaned bag afterwards. *)
Definition clean_body (body : gmap string pyval) : gmap string pyval :=
  delete "title" (delete "chat_id" (delete "user" body)).

(** The payload dictionary, with [system] added only for a true value. *)
Definition build_payload (rt : runtime) (V : Valves) (model_id : pyval)
    (processed_messages : list pyval) (body : gmap string pyval)
    (system_message : pyval) : gmap string pyval :=
  let payload : gmap string pyval :=
    {[ "model" := model_id;
       "messages" := PList processed_messages;
       "max_tokens" := default (PInt (DEFAULT_MAX_TOKENS V)) (body !! "max_tokens");
       "temperature" := default (PFloat (DEFAULT_TEMPERATURE V)) (body !! "temperature");
       "top_k" := default (PInt (DEFAULT_TOP_K V)) (body !! "top_k");
       "top_p" := default (PFloat (DEFAULT_TOP_P V)) (body !! "top_p");
       "stop_sequences" := default (PList []) (body !! "stop");
       "stream" := default (PBool false) (body !! "stream") ]} in
  if py_truthy system_message
  then <["system" := PStr (py_str rt system_message)]> payload
  else payload.

(** [pipe] up to the payload: everything before a request is sent. *)
Definition assemble (rt : runtime) (V : Valves) (model_id : pyval)
    (messages : list pyval) (body : gmap string pyval) : py (gmap string pyval) :=
  let body := clean_body body in
  '(system_message, messages) ← pop_system_message messages;
  '(_, processed_messages) ← process_messages V counters0 messages;
  Ret (build_payload rt V model_id processed_messages body system_message).

(** ** Response decoders *)

Definition api_error (r : response) : exn :=
  Exception ("API Error: " +:+ str_int (status_code r) +:+ " - " +:+ text r).

(** The body of the [try] in [get_completion]. *)
Definition get_completion_try (rt : runtime) (self : Pipeline)
    (payload : gmap string pyval) : py pyval :=
  match requests_post rt base_url (headers self) payload false with
  | Failed e => Raise e
  | Response r =>
      if negb (status_code r =? 200) then Raise (api_error r)
      else
        result ← json r;
        has_content ← py_contains "content" result;
        if has_content : bool then
          content ← py_getitem result "content";
          if py_truthy content then
            first ← py_getitem0 content;
            py_getitem first "text"
          else Ret (PStr "")
        else Ret (PStr "")
  end.

(** [get_completion(payload)] *)
Definition get_completion (rt : runtime) (self : Pipeline)
    (payload : gmap string pyval) : py pyval :=
  try_except (get_completion_try rt self payload)
    (λ e, Ret (PStr ("Error getting completion: " +:+ str_exn e))).

(** What one event makes the loop do. *)
Inductive action :=
| Yield (chunk : pyval)
| Continue
| Break.

(** [json.loads(event.data)] *)
Definition json_loads (ev : event) : py pyval :=
  match ev with
  | NotJSON msg => Raise (JSONDecodeError msg)
  | Unloadable e => Raise e
  | JSON data => Ret data
  end.

(** The body of the inner [try] of [stream_response]. *)
Definition dispatch_event (ev : event) : py action :=
  data ← json_loads ev;
  type ← py_getitem data "type";
  if py_eq_str type "content_block_start" then
    content_block ← py_getitem data "content_block";
    text ← py_getitem content_block "text";
    Ret (Yield text)
  else if py_eq_str type "content_block_delta" then
    delta ← py_getitem data "delta";
    text ← py_getitem delta "text";
    Ret (Yield text)
  else if py_eq_str type "message_stop" then Ret Break
  else Ret Continue.

(** The inner [try] with its two handlers, which only log. *)
Definition handle_event (ev : event) : py action :=
  try_except (dispatch_event ev)
    (λ e, match e with
          | JSONDecodeError _ | KeyError _ => Ret Continue
          | _ => Raise e
          end).

(** A generator run to its end: the chunks it yielded, and the exception
    that ended it if it did not end by returning. *)
Record generated := {
  chunks : list pyval;
  escaped : option exn
}.

Definition yield_then (chunk : pyval) (g : generated) : generated :=
  {| chunks := chunk :: chunks g; escaped := escaped g |}.

(** [for event in client.events()] *)
Fixpoint consume (evs : list event) (broken : option exn) : generated :=
  match evs with
  | [] => {| chunks := []; escaped := broken |}
  | ev :: rest =>
      match handle_event ev with
      | Ret (Yield chunk) => yield_then chunk (consume rest broken)
      | Ret Continue => consume rest broken
      | Ret Break => {| chunks := []; escaped := None |}
      | Raise e => {| chunks := []; escaped := Some e |}
      end
  end.

(** The body of the outer [try] of [stream_response]. *)
Definition stream_response_try (rt : runtime) (self : Pipeline)
    (payload : gmap string pyval) : generated :=
  match requests_post rt base_url (headers self) payload true with
  | Failed e => {| chunks := []; escaped := Some e |}
  | Response r =>
      if negb (status_code r =? 200)
      then {| chunks := []; escaped := Some (api_error r) |}
      else consume (events r) (broken r)
  end.

(** [try: body except Exception as e: yield handler e] in a generator *)
Definition yield_except (body : generated) (handler : exn → pyval) : generated :=
  match escaped body with
  | None => body
  | Some e => {| chunks := chunks body ++ [handler e]; escaped := None |}
  end.

(** [stream_response(payload)], run to its end *)
Definition stream_response (rt : runtime) (self : Pipeline)
    (payload : gmap string pyval) : generated :=
  yield_except (stream_response_try rt self payload)
    (λ e, PStr ("Error during streaming: " +:+ str_exn e)).

(** ** The entry point *)

(** What [pipe] returns: a value (the completion text or an error string)
    or the generator of [stream_response]. *)
Inductive pipe_result :=
| Text (v : pyval)
| Stream (g : generated).

(** The body of the [try] in [pipe]. *)
Definition pipe_try (rt : runtime) (self : Pipeline) (model_id : pyval)
    (messages : list pyval) (body : gmap string pyval) : py pipe_result :=
  payload ← assemble rt (valves self) model_id messages body;
  stream ← py_getitem (PDict payload) "stream";
  if py_truthy stream then Ret (Stream (stream_response rt self payload))
  else
    completion ← get_completion rt self payload;
    Ret (Text completion).

(** [pipe(user_message, model_id, messages, body)] *)
Definition pipe (rt : runtime) (self : Pipeline) (user_message : string)
    (model_id : pyval) (messages : list pyval) (body : gmap string pyval)
  : py pipe_result :=
  try_except (pipe_try rt self model_id messages body)
    (λ e, Ret (Text (PStr ("Error: " +:+ str_exn e)))).

(** ** Vocabulary of the properties *)

(** The events the decoder reacts to, with whatever other fields the
    upstream adds to the event ([fields]) and to its inner block
    ([inner]). *)
Definition content_block_start (fields inner : gmap string pyval) (text : pyval) : event :=
  JSON (PDict (<["type" := PStr "content_block_start"]>
                 (<["content_block" := PDict (<["text" := text]> inner)]> fields))).

Definition content_block_delta (fields inner : gmap string pyval) (text : pyval) : event :=
  JSON (PDict (<["type" := PStr "content_block_delta"]>
                 (<["delta" := PDict (<["text" := text]> inner)]> fields))).

Definition message_stop (fields : gmap string pyval) : event :=
  JSON (PDict (<["type" := PStr "message_stop"]> fields)).

(** A valid text-carrying event and the chunk it carries. *)
Inductive carries : event → pyval → Prop :=
| carries_start fields inner text : carries (content_block_start fields inner text) text
| carries_delta fields inner text : carries (content_block_delta fields inner text) text.






(** The events that yield a chunk, and the one that stops the loop, read
    off the object rather than built. *)
Inductive yields : event → pyval → Prop :=
| yields_start d inner text :
    d !! "type" = Some (PStr "content_block_start") →
    d !! "content_block" = Some (PDict inner) → inner !! "text" = Some text →
    yields (JSON (PDict d)) text
| yields_delta d inner text :
    d !! "type" = Some (PStr "content_block_delta") →
    d !! "delta" = Some (PDict inner) → inner !! "text" = Some text →
    yields (JSON (PDict d)) text.


(** The error chunk that ends a failed stream, and the error strings of
    the two other boundaries. *)
Definition streaming_error (e : exn) : pyval :=
  PStr ("Error during streaming: " +:+ str_exn e).

Definition completion_error (e : exn) : pyval :=
  PStr ("Error getting completion: " +:+ str_exn e).

Definition pipeline_error (e : exn) : pyval :=
  PStr ("Error: " +:+ str_exn e).

(** How the request reads one generation parameter: the caller's value
    under [key] when the options bag has one, the default otherwise. *)
Definition carries_param (body payload : gmap string pyval)
    (key field : string) (dflt : pyval) : Prop :=
  (body !! key = None → payload !! field = Some dflt) ∧
  (∀ v, body !! key = Some v → payload !! field = Some v).

(** *** The typed reading of a call

    The data model of the turns: a content item is a text, an image with
    a source, or something else; a turn is a role with its items.  The
    [views] relations say when a JSON value is read as such. *)
Inductive image_source :=
| Base64 (media_type data : string)
| Url (url : pyval).

Inductive content_item :=
| TextItem (text : pyval)
| ImageItem (source : image_source)
| OtherItem.

(** The block the adapter sends for an image source. *)
Definition image_block (source : image_source) : pyval :=
  match source with
  | Base64 media_type data => base64_image media_type data
  | Url url => url_image url
  end.

Inductive views_item : pyval → content_item → Prop :=
| views_text d text :
    d !! "type" = Some (PStr "text") → d !! "text" = Some text →
    views_item (PDict d) (TextItem text)
| views_image d image_data source :
    d !! "type" = Some (PStr "image_url") → d !! "image_url" = Some image_data →
    process_image image_data = Ret (image_block source) →
    views_item (PDict d) (ImageItem source)
| views_other d tag :
    d !! "type" = Some tag →
    py_eq_str tag "text" = false → py_eq_str tag "image_url" = false →
    views_item (PDict d) OtherItem.

(** A turn with a list as content is read item by item; any other
    content (or none) is one text. *)
Inductive views_turn : pyval → pyval * list content_item → Prop :=
| views_list d role items content :
    d !! "role" = Some role → d !! "content" = Some (PList items) →
    Forall2 views_item items content →
    views_turn (PDict d) (role, content)
| views_plain d role :
    d !! "role" = Some role → is_list (default PNone (d !! "content")) = false →
    views_turn (PDict d) (role, [TextItem (default (PStr "") (d !! "content"))]).

Definition item_blocks (item : content_item) : list pyval :=
  match item with
  | TextItem text => [text_block text]
  | ImageItem source => [image_block source]
  | OtherItem => []
  end.

Definition item_images (item : content_item) : list image_source :=
  match item with
  | ImageItem source => [source]
  | _ => []
  end.

(** The images of a call, in order of appearance. *)
Definition turn_images (turns : list (pyval * list content_item)) : list image_source :=
  flat_map (λ turn, flat_map item_images turn.2) turns.

(** The content blocks of the normalised turns, in order. *)
Definition turn_blocks (turns : list (pyval * list content_item)) : list pyval :=
  flat_map (λ turn, flat_map item_blocks turn.2) turns.

(** The normalised turn the request carries. *)
Definition normalized (turn : pyval * list content_item) : pyval :=
  PDict {[ "role" := turn.1; "content" := PList (flat_map item_blocks turn.2) ]}.

(** The same counts on the JSON input: the items of the list contents,
    and those tagged "image_url". *)
Definition is_image_item (item : pyval) : bool :=
  match item with
  | PDict d => match d !! "type" with
               | Some tag => py_eq_str tag "image_url"
               | None => false
               end
  | _ => false
  end.

Definition content_items (message : pyval) : list pyval :=
  match message with
  | PDict d => match d !! "content" with
               | Some (PList items) => items
               | _ => []
               end
  | _ => []
  end.

Definition image_items (messages : list pyval) : list pyval :=
  List.filter is_image_item (flat_map content_items messages).

(** [block["type"] == "image"] on an outbound block *)
Definition is_image_block (block : pyval) : bool :=
  match py_getitem block "type" with
  | Ret tag => py_eq_str tag "image"
  | Raise _ => false
  end.

(** The decoded size the adapter charges for an image: [len(data) * 3 / 4]
    for a base64 source, nothing for a URL. *)
Definition decoded_size (source : image_source) : Q :=
  match source with
  | Base64 _ data => (inject_Z (Z.of_nat (String.length data) * 3) / 4)%Q
  | Url _ => 0%Q
  end.

Definition total_decoded_size (images : list image_source) : Q :=
  fold_right (λ source acc, (decoded_size source + acc)%Q) 0%Q images.

(** The size as the specification words it: [ceil(len(data) * 3/4)]. *)
Definition ceil_decoded_size (source : image_source) : Z :=
  match source with
  | Base64 _ data => (Z.of_nat (String.length data) * 3 + 3) / 4
  | Url _ => 0
  end.

Definition total_ceil_decoded_size (images : list image_source) : Z :=
  fold_right (λ source acc, ceil_decoded_size source + acc) 0 images.

(** The configured ceiling, in bytes. *)
Definition size_ceiling (V : Valves) : Q :=
  inject_Z (MAX_IMAGE_SIZE_MB V * 1024 * 1024).

(** The two limits as the loops apply them, image after image. *)
Fixpoint check_images (V : Valves) (st : counters) (images : list image_source)
  : py counters :=
  match images with
  | [] => Ret st
  | source :: rest =>
      if MAX_IMAGES V <=? image_count st then Raise (too_many_images V)
      else
        match source with
        | Base64 _ _ =>
            let total := (total_image_size st + decoded_size source)%Q in
            if Qgtb total (size_ceiling V) then Raise (images_too_large V)
            else check_images V {| image_count := image_count st + 1;
                                   total_image_size := total |} rest
        | Url _ =>
            check_images V {| image_count := image_count st + 1;
                              total_image_size := total_image_size st |} rest
        end
  end.

(** [payload["stream"]] as [pipe] tests it to choose the decoder. *)
Definition wants_stream (payload : gmap string pyval) : bool :=
  py_truthy (default PNone (payload !! "stream")).

(** The chunks of a generator whose body yielded [chunks body] and then
    either returned or raised [e]: the error chunk comes last. *)
Definition with_error_chunk (body : generated) : list pyval :=
  chunks body ++ match escaped body with
                 | Some e => [streaming_error e]
                 | None => []
                 end.

(** The content blocks of processed turns, turn after turn, and those of
    an outbound request. *)
Definition processed_blocks (processed_messages : list pyval) : list pyval :=
  flat_map (λ turn, match py_getitem turn "content" with
                    | Ret (PList blocks) => blocks
                    | _ => []
                    end) processed_messages.

Definition request_blocks (payload : gmap string pyval) : list pyval :=
  match payload !! "messages" with
  | Some (PList processed_messages) => processed_blocks processed_messages
  | _ => []
  end.

(** [block] is what the adapter makes of the image item [item]. *)
Definition converts (item block : pyval) : Prop :=
  ∃ (d : gmap string pyval) image_data,
    item = PDict d ∧ d !! "image_url" = Some image_data ∧
    process_image image_data = Ret block.

(** A base64 payload of [p] characters, built by doubling. *)
Fixpoint filler (p : positive) : string :=
  match p with
  | xH => "A"
  | xO p' => filler p' +:+ filler p'
  | xI p' => String "A" (filler p' +:+ filler p')
  end.

(** An "image_url" item for an image inlined as a PNG data URI. *)
Definition png_item (data : string) : pyval :=
  PDict {[ "type" := PStr "image_url";
           "image_url" := PDict {[ "url" := PStr ("data:image/png;base64," +:+ data) ]} ]}.

(** *** Sample calls

    Collaborators and inputs the properties are instantiated at. *)

(** An upstream that answers every request with the text "ok". *)
Definition ok_response : response := {|
  status_code := 200;
  text := "";
  json := Ret (PDict {[ "content" := PList [PDict {[ "text" := PStr "ok" ]}] ]});
  events := [];
  broken := None
|}.

Definition ok_runtime : runtime := {|
  py_repr := λ _, "";
  requests_post := λ _ _ _ _, Response ok_response
|}.

(** An upstream that refuses every request with status 429. *)
Definition busy_response : response := {|
  status_code := 429;
  text := "slow down";
  json := Raise (JSONDecodeError "Expecting value: line 1 column 1 (char 0)");
  events := [];
  broken := None
|}.

Definition busy_runtime : runtime := {|
  py_repr := λ _, "";
  requests_post := λ _ _ _ _, Response busy_response
|}.

(** An upstream whose stream delivers one chunk and then breaks. *)
Definition flaky_response : response := {|
  status_code := 200;
  text := "";
  json := Raise (JSONDecodeError "Expecting value: line 1 column 1 (char 0)");
  events := [content_block_delta ∅ ∅ (PStr "Hi")];
  broken := Some (HTTPFailure "Connection broken")
|}.

Definition flaky_runtime : runtime := {|
  py_repr := λ _, "";
  requests_post := λ _ _ _ _, Response flaky_response
|}.

Definition haiku : pyval := PStr "claude-3-haiku-20240307".

Definition turn (role : string) (content : pyval) : pyval :=
  PDict {[ "role" := PStr role; "content" := content ]}.

Definition text_item (text : string) : pyval :=
  PDict {[ "type" := PStr "text"; "text" := PStr text ]}.

Definition url_item (url : string) : pyval :=
  PDict {[ "type" := PStr "image_url"; "image_url" := PDict {[ "url" := PStr url ]} ]}.

(** The adapter with chosen limits. *)
Definition with_limits (max_images max_image_size_mb : Z) : Pipeline :=
  update_headers {|
    valves := {| ANTHROPIC_API_KEY := "key";
                 MAX_IMAGES := max_images;
                 MAX_IMAGE_SIZE_MB := max_image_size_mb;
                 DEFAULT_MAX_TOKENS := 4096;
                 DEFAULT_TEMPERATURE := 8 # 10;
                 DEFAULT_TOP_K := 40;
                 DEFAULT_TOP_P := 9 # 10 |};
    headers := ∅
  |}.

(** *** The rest of the adapter object *)

(** [get_anthropic_models]: identifier and display name of each model. *)
Definition get_anthropic_models : list (string * string) :=
  [("claude-3-haiku-20240307", "claude-3-haiku");
   ("claude-3-opus-20240229", "claude-3-opus");
   ("claude-3-sonnet-20240229", "claude-3-sonnet");
   ("claude-3-5-haiku-20241022", "claude-3.5-haiku");
   ("claude-3-5-sonnet-20241022", "claude-3.5-sonnet")].

(** [pipelines] *)
Definition pipelines : list (string * string) := get_anthropic_models.

(** [on_valves_updated] *)
Definition on_valves_updated (self : Pipeline) : Pipeline := update_headers self.

(** The host storing another key in the valves ([self.valves.ANTHROPIC_API_KEY
    = key]); the cached headers are left as they are. *)
Definition set_api_key (self : Pipeline) (key : string) : Pipeline := {|
  valves := {| ANTHROPIC_API_KEY := key;
               MAX_IMAGES := MAX_IMAGES (valves self);
               MAX_IMAGE_SIZE_MB := MAX_IMAGE_SIZE_MB (valves self);
               DEFAULT_MAX_TOKENS := DEFAULT_MAX_TOKENS (valves self);
               DEFAULT_TEMPERATURE := DEFAULT_TEMPERATURE (valves self);
               DEFAULT_TOP_K := DEFAULT_TOP_K (valves self);
               DEFAULT_TOP_P := DEFAULT_TOP_P (valves self) |};
  headers := headers self
|}.

(** [c not in s] *)
Fixpoint lacks (c : ascii) (s : string) : bool :=
  match s with
  | EmptyString => true
  | String c' s' => negb (Ascii.eqb c' c) && lacks c s'
  end.

(** The keys every outbound request has. *)
Definition request_keys : gset string :=
  {[ "model"; "messages"; "max_tokens"; "temperature"; "top_k"; "top_p";
     "stop_sequences"; "stream" ]}.

(** The keys of the options bag the adapter reads. *)
Definition option_keys : list string :=
  ["max_tokens"; "temperature"; "top_k"; "top_p"; "stop"; "stream"].

(** ** Extraction of the system turn *)

Section Extraction.

Lemma py_getitem_dict (d : gmap string pyval) k v :
  d !! k = Some v → py_getitem (PDict d) k = Ret v.
Proof. intros H. simpl. by rewrite H. Qed.

Lemma py_getitem_missing (d : gmap string pyval) k :
  d !! k = None → py_getitem (PDict d) k = Raise (KeyError (repr_key k)).
Proof. intros H. simpl. by rewrite H. Qed.

Lemma py_eq_str_true v s : py_eq_str v s = true ↔ v = PStr s.
Proof.
  destruct v; simpl; try (split; [discriminate | congruence]).
  rewrite String.eqb_eq. split; congruence.
Qed.

Lemma py_eq_str_false v s : v ≠ PStr s → py_eq_str v s = false.
Proof.
  intros H. destruct (py_eq_str v s) eqn:E; [|done].
  by apply py_eq_str_true in E.
Qed.

(** C3. If the first turn has role "system", extraction returns its
    content and the list without that first turn; if the first turn has
    another role (or the list is empty), it returns [None] and the list
    unchanged.  Whatever the input, a returned list is either the input
    itself or the input without its first turn, in which case that turn
    had role "system": no turn after the first is ever removed, so a
    later system turn stays in the list as a normal turn. *)
Theorem pop_system_message_first_only (d : gmap string pyval) (rest : list pyval) :
  (∀ content,
      d !! "role" = Some (PStr "system") → d !! "content" = Some content →
      pop_system_message (PDict d :: rest) = Ret (content, rest)) ∧
  (∀ role,
      d !! "role" = Some role → role ≠ PStr "system" →
      pop_system_message (PDict d :: rest) = Ret (PNone, PDict d :: rest)) ∧
  pop_system_message [] = Ret (PNone, []) ∧
  (∀ messages system_message turns,
      pop_system_message messages = Ret (system_message, turns) →
      (system_message = PNone ∧ turns = messages) ∨
      (∃ first, messages = first :: turns ∧
                py_getitem first "role" = Ret (PStr "system") ∧
                py_getitem first "content" = Ret system_message)).
Proof.
  repeat split.
  - intros content Hrole Hcontent. unfold pop_system_message.
    rewrite (py_getitem_dict _ _ _ Hrole). simpl.
    by rewrite Hcontent.
  - intros role Hrole Hne. unfold pop_system_message.
    rewrite (py_getitem_dict _ _ _ Hrole). simpl.
    by rewrite (py_eq_str_false _ _ Hne).
  - intros [|first others] system_message turns.
    { simpl. intros [= Hsys Hturns]. subst. left. by split. }
    unfold pop_system_message.
    destruct (py_getitem first "role") as [role|] eqn:Hfirst; simpl; [|discriminate].
    destruct (py_eq_str role "system") eqn:Hrole.
    + apply py_eq_str_true in Hrole as ->.
      destruct (py_getitem first "content") as [content|] eqn:Hcontent; simpl;
        [|discriminate].
      intros [= <- <-]. right. by exists first.
    + intros [= <- <-]. by left.
Qed.

Lemma pop_system_message_first_only_witness :
  pop_system_message
    [PDict {[ "role" := PStr "system"; "content" := PStr "Be terse" ]};
     PDict {[ "role" := PStr "system"; "content" := PStr "again" ]}]
  = Ret (PStr "Be terse", [PDict {[ "role" := PStr "system"; "content" := PStr "again" ]}])
  ∧
  pop_system_message
    [PDict {[ "role" := PStr "user"; "content" := PStr "Hi" ]};
     PDict {[ "role" := PStr "system"; "content" := PStr "late" ]}]
  = Ret (PNone, [PDict {[ "role" := PStr "user"; "content" := PStr "Hi" ]};
                 PDict {[ "role" := PStr "system"; "content" := PStr "late" ]}]).
Proof.
  split.
  - apply (pop_system_message_first_only
             {[ "role" := PStr "system"; "content" := PStr "Be terse" ]}
             [PDict {[ "role" := PStr "system"; "content" := PStr "again" ]}]);
      reflexivity.
  - apply (pop_system_message_first_only
             {[ "role" := PStr "user"; "content" := PStr "Hi" ]}
             [PDict {[ "role" := PStr "system"; "content" := PStr "late" ]}]
          ) with (role := PStr "user"); [reflexivity | discriminate].
Defined.

End Extraction.

(** ** The streaming decoder *)

Section Streaming.

Lemma handle_content_block_start fields inner text :
  handle_event (content_block_start fields inner text) = Ret (Yield text).
Proof.
  unfold handle_event, dispatch_event, content_block_start. simpl.
  rewrite lookup_insert_eq. simpl.
  rewrite lookup_insert_ne, lookup_insert_eq by done. simpl.
  by rewrite lookup_insert_eq.
Qed.

Lemma handle_content_block_delta fields inner text :
  handle_event (content_block_delta fields inner text) = Ret (Yield text).
Proof.
  unfold handle_event, dispatch_event, content_block_delta. simpl.
  rewrite lookup_insert_eq. simpl.
  rewrite lookup_insert_ne, lookup_insert_eq by done. simpl.
  by rewrite lookup_insert_eq.
Qed.

Lemma handle_message_stop fields :
  handle_event (message_stop fields) = Ret Break.
Proof.
  unfold handle_event, dispatch_event, message_stop. simpl.
  by rewrite lookup_insert_eq.
Qed.

Lemma handle_carries ev chunk :
  carries ev chunk → handle_event ev = Ret (Yield chunk).
Proof.
  intros [fields inner text | fields inner text];
    [apply handle_content_block_start | apply handle_content_block_delta].
Qed.



Lemma consume_yield ev chunk rest failure :
  handle_event ev = Ret (Yield chunk) →
  consume (ev :: rest) failure = yield_then chunk (consume rest failure).
Proof. intros H. simpl. by rewrite H. Qed.


(** A stream of valid events that breaks: the chunks, then the failure. *)
Lemma consume_carried evs carried failure :
  Forall2 carries evs carried →
  consume evs failure = {| chunks := carried; escaped := failure |}.
Proof.
  induction 1 as [|ev chunk evs carried Hev _ IH]; [done|].
  by rewrite (consume_yield _ _ _ _ (handle_carries _ _ Hev)), IH.
Qed.

Lemma stream_response_ok rt self payload r :
  requests_post rt base_url (headers self) payload true = Response r →
  status_code r = 200 →
  stream_response rt self payload
  = yield_except (consume (events r) (broken r)) streaming_error.
Proof.
  intros Hpost Hstatus. unfold stream_response, stream_response_try.
  by rewrite Hpost, Hstatus.
Qed.

(** C5. The events [content_block_start("Hi"), content_block_delta(" there"),
    message_stop] decode to the chunks ["Hi", " there"], in that order,
    and the generator then returns: whatever events (or transport
    failure) follow the message_stop, nothing more is produced. *)
Theorem decode_hi_there fields1 inner1 fields2 inner2 fields3 more failure :
  let evs := content_block_start fields1 inner1 (PStr "Hi")
             :: content_block_delta fields2 inner2 (PStr " there")
             :: message_stop fields3 :: more in
  consume evs failure = {| chunks := [PStr "Hi"; PStr " there"]; escaped := None |} ∧
  ∀ rt self payload r,
    requests_post rt base_url (headers self) payload true = Response r →
    status_code r = 200 → events r = evs → broken r = failure →
    stream_response rt self payload
    = {| chunks := [PStr "Hi"; PStr " there"]; escaped := None |}.
Proof.
  intros evs.
  assert (Hconsume : consume evs failure
                     = {| chunks := [PStr "Hi"; PStr " there"]; escaped := None |}).
  { unfold evs.
    rewrite (consume_yield _ _ _ _ (handle_content_block_start _ _ _)).
    rewrite (consume_yield _ _ _ _ (handle_content_block_delta _ _ _)).
    simpl consume at 1. by rewrite handle_message_stop. }
  split; [done|].
  intros rt self payload r Hpost Hstatus Hevents Hbroken.
  rewrite (stream_response_ok _ _ _ _ Hpost Hstatus), Hevents, Hbroken, Hconsume.
  reflexivity.
Qed.

Lemma decode_hi_there_witness :
  let r := {| status_code := 200; text := "";
              json := Ret PNone;
              events := [content_block_start ∅ ∅ (PStr "Hi");
                         content_block_delta ∅ ∅ (PStr " there");
                         message_stop ∅;
                         content_block_delta ∅ ∅ (PStr "late")];
              broken := Some (HTTPFailure "connection reset") |} in
  let rt := {| py_repr := λ _, ""; requests_post := λ _ _ _ _, Response r |} in
  stream_response rt (init "key") ∅
  = {| chunks := [PStr "Hi"; PStr " there"]; escaped := None |}.
Proof.
  intros r rt.
  apply (proj2 (decode_hi_there ∅ ∅ ∅ ∅ ∅ [content_block_delta ∅ ∅ (PStr "late")]
                  (Some (HTTPFailure "connection reset")))
           rt (init "key") ∅ r); reflexivity.
Defined.

(** Outside the malformed events: data that is valid JSON but not an
    object is refused by the subscript with a [TypeError], which the inner
    handlers do not catch; the generator ends with the error chunk. *)
Lemma non_object_event_ends_stream data rest failure :
  (∀ d, data ≠ PDict d) →
  ∃ e, consume (JSON data :: rest) failure = {| chunks := []; escaped := Some e |} ∧
       yield_except (consume (JSON data :: rest) failure) streaming_error
       = {| chunks := [streaming_error e]; escaped := None |}.
Proof.
  intros Hdata. destruct data as [| | | | | |d]; try (by eexists); by destruct (Hdata d).
Qed.





Lemma carries_yields ev chunk : carries ev chunk → yields ev chunk.
Proof.
  intros [fields inner text | fields inner text].
  - eapply yields_start; [apply lookup_insert_eq | | apply lookup_insert_eq].
    rewrite lookup_insert_ne by done. apply lookup_insert_eq.
  - eapply yields_delta; [apply lookup_insert_eq | | apply lookup_insert_eq].
    rewrite lookup_insert_ne by done. apply lookup_insert_eq.
Qed.




End Streaming.

(** ** The content-block normaliser *)

Section Normaliser.

Variable V : Valves.

Lemma process_items_app st items1 items2 :
  process_items V st (items1 ++ items2)
  = '(st1, blocks1) ← process_items V st items1;
    '(st2, blocks2) ← process_items V st1 items2;
    Ret (st2, blocks1 ++ blocks2).
Proof.
  revert st. induction items1 as [|item items1 IH]; intros st; simpl.
  - by destruct (process_items V st items2) as [[st2 blocks2]|].
  - destruct (process_item V st item) as [[st1 blocks]|]; simpl; [|done].
    rewrite IH.
    destruct (process_items V st1 items1) as [[st2 blocks1]|]; simpl; [|done].
    destruct (process_items V st2 items2) as [[st3 blocks2]|]; simpl; [|done].
    by rewrite app_assoc.
Qed.

Lemma process_item_other st (d : gmap string pyval) tag :
  d !! "type" = Some tag →
  py_eq_str tag "text" = false → py_eq_str tag "image_url" = false →
  process_item V st (PDict d) = Ret (st, []).
Proof.
  intros Htag Htext Himage. unfold process_item.
  rewrite (py_getitem_dict _ _ _ Htag). simpl.
  by rewrite Htext, Himage.
Qed.

Lemma process_items_drop st item pre post :
  (∀ st', process_item V st' item = Ret (st', [])) →
  process_items V st (pre ++ item :: post) = process_items V st (pre ++ post).
Proof.
  intros Hitem. rewrite !process_items_app.
  destruct (process_items V st pre) as [[st1 blocks1]|]; simpl; [|done].
  rewrite Hitem. simpl.
  by destruct (process_items V st1 post) as [[st2 blocks2]|].
Qed.

(** C9. A content item whose type tag is neither "text" nor "image_url"
    produces no block, raises nothing and changes no counter, so the
    blocks of a list content are those of the list without the item;
    an item tagged "image" is such an item. *)
Theorem unknown_item_dropped (d : gmap string pyval) tag :
  d !! "type" = Some tag →
  py_eq_str tag "text" = false → py_eq_str tag "image_url" = false →
  (∀ st, process_item V st (PDict d) = Ret (st, [])) ∧
  (∀ st pre post,
      process_items V st (pre ++ PDict d :: post) = process_items V st (pre ++ post)) ∧
  (∀ st (message : gmap string pyval) pre post,
      message !! "content" = Some (PList (pre ++ PDict d :: post)) →
      normalize_content V st (PDict message) = process_items V st (pre ++ post)) ∧
  (∀ st fields,
      process_item V st (PDict (<["type" := PStr "image"]> fields)) = Ret (st, [])).
Proof.
  intros Htag Htext Himage.
  assert (Hdrop : ∀ st, process_item V st (PDict d) = Ret (st, []))
    by (intros st; by eapply process_item_other).
  repeat split; [done | | |].
  - intros st pre post. by apply process_items_drop.
  - intros st message pre post Hcontent. unfold normalize_content. simpl.
    rewrite Hcontent. simpl. by apply process_items_drop.
  - intros st fields. apply process_item_other with (tag := PStr "image");
      [apply lookup_insert_eq | done | done].
Qed.

Lemma normalize_content_plain st (message : gmap string pyval) :
  is_list (default PNone (message !! "content")) = false →
  normalize_content V st (PDict message)
  = Ret (st, [text_block (default (PStr "") (message !! "content"))]).
Proof.
  intros Hplain. unfold normalize_content. simpl.
  by destruct (message !! "content") as [[]|].
Qed.

(** C10. A turn whose content is not a list is normalised to exactly
    one block, the object with "type" "text" and, as "text", the content
    value as it is, or the empty string when the turn has no content key;
    no counter changes; the processed turn carries that one block under
    the turn's role, and so does the request assembled from a call made of
    such a turn. *)
Theorem plain_content_one_text_block st (message : gmap string pyval) :
  is_list (default PNone (message !! "content")) = false →
  normalize_content V st (PDict message)
  = Ret (st, [PDict {[ "type" := PStr "text";
                       "text" := default (PStr "") (message !! "content") ]}]) ∧
  (∀ content, message !! "content" = Some content →
      normalize_content V st (PDict message)
      = Ret (st, [PDict {[ "type" := PStr "text"; "text" := content ]}])) ∧
  (message !! "content" = None →
      normalize_content V st (PDict message)
      = Ret (st, [PDict {[ "type" := PStr "text"; "text" := PStr "" ]}])) ∧
  (∀ role, message !! "role" = Some role →
      process_message V st (PDict message)
      = Ret (st, PDict {[ "role" := role;
                          "content" :=
                            PList [PDict {[ "type" := PStr "text";
                                            "text" := default (PStr "")
                                                        (message !! "content") ]}] ]})) ∧
  (∀ rt model_id body role,
      message !! "role" = Some role → py_eq_str role "system" = false →
      ∃ payload,
        assemble rt V model_id [PDict message] body = Ret payload ∧
        payload !! "messages"
        = Some (PList [PDict {[ "role" := role;
                                "content" :=
                                  PList [PDict {[ "type" := PStr "text";
                                                  "text" := default (PStr "")
                                                              (message !! "content") ]}] ]}])).
Proof.
  intros Hplain. pose proof (normalize_content_plain st message Hplain) as H.
  assert (Hturn : ∀ st' role, message !! "role" = Some role →
            process_message V st' (PDict message)
            = Ret (st', PDict {[ "role" := role;
                                 "content" :=
                                   PList [text_block (default (PStr "")
                                                        (message !! "content"))] ]})).
  { intros st' role Hrole. unfold process_message.
    rewrite (normalize_content_plain st' message Hplain). simpl. by rewrite Hrole. }
  split; [done|]. split; [|split; [|split]].
  - intros content Hcontent. by rewrite H, Hcontent.
  - intros Hnone. by rewrite H, Hnone.
  - intros role Hrole. by apply Hturn.
  - intros rt model_id body role Hrole Hother.
    eexists. split.
    + unfold assemble, pop_system_message.
      rewrite (py_getitem_dict _ _ _ Hrole). cbn [mbind py_bind]. rewrite Hother.
      cbn [mbind py_bind process_messages]. rewrite (Hturn _ _ Hrole).
      cbn [mbind py_bind]. reflexivity.
    + reflexivity.
Qed.

(** *** What a successful normalisation implies, for any input *)

Lemma check_images_app st images1 images2 :
  check_images V st (images1 ++ images2)
  = st1 ← check_images V st images1; check_images V st1 images2.
Proof.
  revert st. induction images1 as [|source images1 IH]; intros st; [done|].
  simpl. destruct (MAX_IMAGES V <=? image_count st); [done|].
  destruct source; [destruct (Qgtb _ _); [done|] |]; apply IH.
Qed.

Lemma process_image_source image_data block :
  process_image image_data = Ret block → ∃ source, block = image_block source.
Proof.
  unfold process_image, process_image_try.
  destruct (py_getitem image_data "url") as [url|]; cbn [mbind py_bind try_except];
    [|done].
  destruct (py_startswith url "data:image") as [[]|]; cbn [mbind py_bind try_except];
    [| intros [= <-]; by exists (Url url) | done].
  destruct (py_split1 url ",") as [parts|]; cbn [mbind py_bind try_except]; [|done].
  destruct (unpack2 parts) as [[mime_type base64_data]|]; cbn [mbind py_bind try_except];
    [|done].
  destruct (index (split ":" mime_type) 1) as [after_colon|];
    cbn [mbind py_bind try_except]; [|done].
  destruct (index (split ";" after_colon) 0) as [media_type|];
    cbn [mbind py_bind try_except]; [|done].
  intros [= <-]. by exists (Base64 media_type base64_data).
Qed.

Lemma account_image_source total source :
  account_image V total (image_block source)
  = match source with
    | Base64 _ _ =>
        let total' := (total + decoded_size source)%Q in
        if Qgtb total' (size_ceiling V) then Raise (images_too_large V) else Ret total'
    | Url _ => Ret total
    end.
Proof. by destruct source. Qed.

Lemma is_image_block_source source : is_image_block (image_block source) = true.
Proof. by destruct source. Qed.

(** One successful iteration of the inner loop moves the counters as
    [check_images] does on the sources of the images it converted. *)
Lemma process_item_inv st item st' blocks :
  process_item V st item = Ret (st', blocks) →
  ∃ sources,
    check_images V st sources = Ret st' ∧
    List.filter is_image_block blocks = map image_block sources ∧
    Forall2 converts (List.filter is_image_item [item]) (map image_block sources).
Proof.
  unfold process_item. cbn [List.filter]. unfold is_image_item.
  destruct item as [| | | | |items|d]; try done.
  cbn [py_getitem]. destruct (d !! "type") as [type|]; cbn [mbind py_bind]; [|done].
  destruct (py_eq_str type "text") eqn:Htext.
  - apply py_eq_str_true in Htext as ->.
    destruct (d !! "text") as [text|]; cbn [mbind py_bind]; [|done].
    intros [= <- <-]. exists []. repeat split. constructor.
  - destruct (py_eq_str type "image_url");
      [|intros [= <- <-]; exists []; repeat split; constructor].
    destruct (Z.leb_spec (MAX_IMAGES V) (image_count st)) as [|Hbelow]; [done|].
    destruct (d !! "image_url") as [image_data|] eqn:Hdata; cbn [mbind py_bind]; [|done].
    destruct (process_image image_data) as [block|] eqn:Hblock; cbn [mbind py_bind];
      [|done].
    destruct (process_image_source _ _ Hblock) as [source ->].
    destruct (account_image V (total_image_size st) (image_block source)) as [total|]
      eqn:Haccount; cbn [mbind py_bind]; [|done].
    intros [= <- <-]. exists [source]. cbn [List.filter map].
    rewrite is_image_block_source. split; [|split; [done|]].
    + cbn [check_images].
      destruct (Z.leb_spec (MAX_IMAGES V) (image_count st)); [lia|].
      rewrite account_image_source in Haccount.
      destruct source as [media_type data | url];
        [cbn zeta in Haccount; destruct (Qgtb _ _); [done|] |];
        by injection Haccount as <-.
    + repeat constructor. by exists d, image_data.
Qed.

Lemma process_items_inv st items st' blocks :
  process_items V st items = Ret (st', blocks) →
  ∃ sources,
    check_images V st sources = Ret st' ∧
    List.filter is_image_block blocks = map image_block sources ∧
    Forall2 converts (List.filter is_image_item items) (map image_block sources).
Proof.
  revert st st' blocks. induction items as [|item items IH]; intros st st' blocks.
  - intros [= <- <-]. exists []. repeat split. constructor.
  - cbn [process_items].
    destruct (process_item V st item) as [[st1 blocks1]|] eqn:Hitem;
      cbn [mbind py_bind]; [|done].
    destruct (process_items V st1 items) as [[st2 blocks2]|] eqn:Hitems;
      cbn [mbind py_bind]; [|done].
    intros [= <- <-].
    apply process_item_inv in Hitem as (sources1 & Hrun1 & Hblocks1 & Hconv1).
    apply IH in Hitems as (sources2 & Hrun2 & Hblocks2 & Hconv2).
    exists (sources1 ++ sources2).
    rewrite check_images_app, Hrun1. cbn [mbind py_bind].
    rewrite List.filter_app, map_app, Hblocks1, Hblocks2.
    repeat split; [done|].
    change (item :: items) with ([item] ++ items).
    rewrite List.filter_app. by apply Forall2_app.
Qed.

Lemma normalize_content_inv st message st' blocks :
  normalize_content V st message = Ret (st', blocks) →
  ∃ sources,
    check_images V st sources = Ret st' ∧
    List.filter is_image_block blocks = map image_block sources ∧
    Forall2 converts (List.filter is_image_item (content_items message))
      (map image_block sources).
Proof.
  unfold normalize_content, content_items.
  destruct message as [| | | | |items|d]; try done.
  cbn [py_get mbind py_bind].
  destruct (d !! "content") as [[| | | | |items|]|]; cbn [default mbind py_bind];
    try (intros [= <- <-]; exists []; repeat split; constructor).
  apply process_items_inv.
Qed.

Lemma process_messages_inv st messages st' processed :
  process_messages V st messages = Ret (st', processed) →
  ∃ sources,
    check_images V st sources = Ret st' ∧
    List.filter is_image_block (processed_blocks processed) = map image_block sources ∧
    Forall2 converts (image_items messages) (map image_block sources).
Proof.
  unfold image_items.
  revert st st' processed. induction messages as [|message messages IH];
    intros st st' processed.
  - intros [= <- <-]. exists []. repeat split. constructor.
  - cbn [process_messages]. unfold process_message.
    destruct (normalize_content V st message) as [[st1 blocks]|] eqn:Hcontent;
      cbn [mbind py_bind]; [|done].
    destruct (py_getitem message "role") as [role|]; cbn [mbind py_bind]; [|done].
    destruct (process_messages V st1 messages) as [[st2 more]|] eqn:Hrest;
      cbn [mbind py_bind]; [|done].
    intros [= <- <-].
    apply normalize_content_inv in Hcontent as (sources1 & Hrun1 & Hblocks1 & Hconv1).
    apply IH in Hrest as (sources2 & Hrun2 & Hblocks2 & Hconv2).
    exists (sources1 ++ sources2).
    rewrite check_images_app, Hrun1. cbn [mbind py_bind flat_map processed_blocks].
    change (py_getitem (PDict {[ "role" := role; "content" := PList blocks ]}) "content")
      with (Ret (A := pyval) (PList blocks)). cbn iota.
    rewrite !List.filter_app, map_app, Hblocks1.
    fold (processed_blocks more). rewrite Hblocks2.
    repeat split; [done|]. by apply Forall2_app.
Qed.

(** *** Refinement to the typed reading *)

Lemma account_image_base64 total media_type data :
  account_image V total (base64_image media_type data)
  = let total' := (total + decoded_size (Base64 media_type data))%Q in
    if Qgtb total' (size_ceiling V) then Raise (images_too_large V) else Ret total'.
Proof. reflexivity. Qed.

Lemma account_image_url total url :
  account_image V total (url_image url) = Ret total.
Proof. reflexivity. Qed.

Lemma process_item_views st item content :
  views_item item content →
  process_item V st item
  = st' ← check_images V st (item_images content); Ret (st', item_blocks content).
Proof.
  intros [d text Htype Htext | d image_data source Htype Hdata Himage
         | d tag Htype Hnot_text Hnot_image].
  - unfold process_item. rewrite (py_getitem_dict _ _ _ Htype). simpl.
    by rewrite Htext.
  - unfold process_item. rewrite (py_getitem_dict _ _ _ Htype). simpl.
    destruct (MAX_IMAGES V <=? image_count st); [done|].
    rewrite Hdata. simpl. rewrite Himage. simpl.
    destruct source as [media_type data | url].
    + change (image_block (Base64 media_type data)) with (base64_image media_type data).
      rewrite account_image_base64. simpl.
      by destruct (Qgtb _ _).
    + change (image_block (Url url)) with (url_image url).
      by rewrite account_image_url.
  - by rewrite (process_item_other _ _ _ Htype Hnot_text Hnot_image).
Qed.

Lemma process_items_views st items content :
  Forall2 views_item items content →
  process_items V st items
  = st' ← check_images V st (flat_map item_images content);
    Ret (st', flat_map item_blocks content).
Proof.
  intros Hviews. revert st.
  induction Hviews as [|item kind items content Hitem _ IH]; intros st; [done|].
  simpl. rewrite (process_item_views _ _ _ Hitem), check_images_app.
  destruct (check_images V st (item_images kind)) as [st1|]; simpl; [|done].
  rewrite IH.
  by destruct (check_images V st1 (flat_map item_images content)).
Qed.

Lemma process_message_views st message turn :
  views_turn message turn →
  process_message V st message
  = st' ← check_images V st (flat_map item_images turn.2); Ret (st', normalized turn).
Proof.
  intros [d role items content Hrole Hcontent Hitems | d role Hrole Hplain].
  - unfold process_message, normalize_content. simpl.
    rewrite Hcontent. simpl. rewrite (process_items_views _ _ _ Hitems).
    destruct (check_images V st (flat_map item_images content)); simpl; [|done].
    by rewrite Hrole.
  - unfold process_message.
    rewrite (normalize_content_plain st d Hplain). simpl.
    by rewrite Hrole.
Qed.

Lemma process_messages_views st messages turns :
  Forall2 views_turn messages turns →
  process_messages V st messages
  = st' ← check_images V st (turn_images turns); Ret (st', map normalized turns).
Proof.
  intros Hviews. revert st.
  induction Hviews as [|message turn messages turns Hturn _ IH]; intros st; [done|].
  simpl. rewrite (process_message_views _ _ _ Hturn).
  unfold turn_images. simpl. rewrite check_images_app.
  destruct (check_images V st (flat_map item_images turn.2)) as [st1|]; simpl; [|done].
  rewrite IH. unfold turn_images.
  by destruct (check_images V st1 _).
Qed.

(** *** The two limits on the typed images *)

Lemma Qgtb_true a b : Qgtb a b = true ↔ (b < a)%Q.
Proof.
  unfold Qgtb. rewrite negb_true_iff, <- not_true_iff_false, Qle_bool_iff.
  split; [apply Qnot_le_lt | apply Qlt_not_le].
Qed.

Lemma Qgtb_false a b : Qgtb a b = false ↔ (a <= b)%Q.
Proof. unfold Qgtb. by rewrite negb_false_iff, Qle_bool_iff. Qed.

Lemma decoded_size_nonneg source : (0 <= decoded_size source)%Q.
Proof.
  destruct source as [media_type data | url]; simpl; [|lra].
  apply Qle_shift_div_l; [lra|]. rewrite Qmult_0_l.
  replace 0%Q with (inject_Z 0) by done. rewrite <- Zle_Qle. lia.
Qed.

Lemma total_decoded_size_nonneg images : (0 <= total_decoded_size images)%Q.
Proof.
  induction images as [|source images IH]; simpl; [lra|].
  pose proof (decoded_size_nonneg source). lra.
Qed.

Lemma total_decoded_size_cons source images :
  total_decoded_size (source :: images)
  = (decoded_size source + total_decoded_size images)%Q.
Proof. reflexivity. Qed.

(** Within both limits every image is accepted and counted. *)
Lemma check_images_within st images :
  image_count st + Z.of_nat (length images) ≤ MAX_IMAGES V →
  (total_image_size st + total_decoded_size images <= size_ceiling V)%Q →
  ∃ st', check_images V st images = Ret st' ∧
         image_count st' = image_count st + Z.of_nat (length images) ∧
         (total_image_size st' == total_image_size st + total_decoded_size images)%Q.
Proof.
  revert st. induction images as [|source images IH]; intros st Hcount Hsize.
  - exists st. simpl. repeat split; [lia | lra].
  - rewrite total_decoded_size_cons in Hsize. cbn [length] in Hcount.
    cbn [check_images].
    pose proof (total_decoded_size_nonneg images) as Hrest.
    destruct (Z.leb_spec (MAX_IMAGES V) (image_count st)); [lia|].
    destruct source as [media_type data | url].
    + destruct (Qgtb _ _) eqn:Hgt.
      { apply Qgtb_true in Hgt. lra. }
      destruct (IH {| image_count := image_count st + 1;
                      total_image_size :=
                        total_image_size st + decoded_size (Base64 media_type data) |})
        as (st' & Hrun & Hn & Htotal); cbn [image_count total_image_size] in *;
        [lia | lra |].
      exists st'. repeat split; [done | cbn [length]; lia | ].
      rewrite total_decoded_size_cons, Htotal. lra.
    + change (decoded_size (Url url)) with 0%Q in Hsize.
      destruct (IH {| image_count := image_count st + 1;
                      total_image_size := total_image_size st |})
        as (st' & Hrun & Hn & Htotal); cbn [image_count total_image_size] in *;
        [lia | lra |].
      exists st'. repeat split; [done | cbn [length]; lia | ].
      rewrite total_decoded_size_cons, Htotal.
      change (decoded_size (Url url)) with 0%Q. lra.
Qed.

(** Within the size ceiling, one image too many is refused by count. *)
Lemma check_images_too_many st images :
  (total_image_size st + total_decoded_size images <= size_ceiling V)%Q →
  MAX_IMAGES V < image_count st + Z.of_nat (length images) →
  images ≠ [] →
  check_images V st images = Raise (too_many_images V).
Proof.
  revert st. induction images as [|source images IH]; intros st Hsize Hcount Hne; [done|].
  rewrite total_decoded_size_cons in Hsize. cbn [length] in Hcount.
  cbn [check_images].
  pose proof (total_decoded_size_nonneg images) as Hrest.
  destruct (Z.leb_spec (MAX_IMAGES V) (image_count st)); [done|].
  assert (images ≠ []) by (intros ->; simpl in Hcount; lia).
  destruct source as [media_type data | url].
  - destruct (Qgtb _ _) eqn:Hgt.
    { apply Qgtb_true in Hgt. lra. }
    apply IH; cbn [image_count total_image_size]; [lra | lia | done].
  - change (decoded_size (Url url)) with 0%Q in Hsize.
    apply IH; cbn [image_count total_image_size]; [lra | lia | done].
Qed.

(** Within the count, a sum beyond the ceiling is refused by size. *)
Lemma check_images_too_large st images :
  image_count st + Z.of_nat (length images) ≤ MAX_IMAGES V →
  (total_image_size st <= size_ceiling V)%Q →
  (size_ceiling V < total_image_size st + total_decoded_size images)%Q →
  check_images V st images = Raise (images_too_large V).
Proof.
  revert st. induction images as [|source images IH]; intros st Hcount Hinv Hsize.
  - simpl in Hsize. lra.
  - rewrite total_decoded_size_cons in Hsize. cbn [length] in Hcount.
    cbn [check_images].
    destruct (Z.leb_spec (MAX_IMAGES V) (image_count st)); [lia|].
    destruct source as [media_type data | url].
    + destruct (Qgtb _ _) eqn:Hgt; [done|].
      apply Qgtb_false in Hgt.
      apply IH; cbn [image_count total_image_size]; [lia | lra | lra].
    + change (decoded_size (Url url)) with 0%Q in Hsize.
      apply IH; cbn [image_count total_image_size]; [lia | lra | lra].
Qed.

(** What the counters say after the images were all accepted. *)
Lemma check_images_ret st sources st' :
  check_images V st sources = Ret st' →
  image_count st' = image_count st + Z.of_nat (length sources) ∧
  (sources ≠ [] → image_count st' ≤ MAX_IMAGES V) ∧
  ((total_image_size st <= size_ceiling V)%Q →
   (total_image_size st + total_decoded_size sources <= size_ceiling V)%Q).
Proof.
  revert st. induction sources as [|source sources IH]; intros st.
  - intros [= <-]. simpl. repeat split; [lia | done | intros; lra].
  - cbn [check_images]. rewrite total_decoded_size_cons. cbn [length].
    destruct (Z.leb_spec (MAX_IMAGES V) (image_count st)); [done|].
    destruct source as [media_type data | url].
    + destruct (Qgtb _ _) eqn:Hgt; [done|]. apply Qgtb_false in Hgt.
      intros (Hcount & Hmax & Hsize)%IH. cbn [image_count total_image_size] in *.
      repeat split; [lia | | intros _; specialize (Hsize Hgt); lra].
      intros _. destruct sources; [simpl in Hcount; lia | by apply Hmax].
    + intros (Hcount & Hmax & Hsize)%IH. cbn [image_count total_image_size] in *.
      change (decoded_size (Url url)) with 0%Q.
      repeat split; [lia | | intros Hfits; specialize (Hsize Hfits); lra].
      intros _. destruct sources; [simpl in Hcount; lia | by apply Hmax].
Qed.

(** The sum up to an image is part of the sum over all of them. *)
Lemma total_decoded_size_app images1 images2 :
  (total_decoded_size (images1 ++ images2)
   == total_decoded_size images1 + total_decoded_size images2)%Q.
Proof.
  induction images1 as [|source images1 IH].
  - change (total_decoded_size []) with 0%Q. simpl app. lra.
  - rewrite <- app_comm_cons, !total_decoded_size_cons. lra.
Qed.

Lemma total_decoded_size_prefix pre source post :
  (total_decoded_size (pre ++ [source]) <= total_decoded_size (pre ++ source :: post))%Q.
Proof.
  rewrite !total_decoded_size_app, !total_decoded_size_cons.
  change (total_decoded_size []) with 0%Q.
  pose proof (total_decoded_size_nonneg post). lra.
Qed.

(** The size error: the running sum exceeds the ceiling at a base64 image
    that the count still lets through. *)
Lemma check_images_exceeds st pre media_type data post :
  image_count st + Z.of_nat (length pre) < MAX_IMAGES V →
  (size_ceiling V
   < total_image_size st + total_decoded_size (pre ++ [Base64 media_type data]))%Q →
  check_images V st (pre ++ Base64 media_type data :: post) = Raise (images_too_large V).
Proof.
  revert st. induction pre as [|source pre IH]; intros st Hcount Hsize.
  - cbn [app length] in *. rewrite total_decoded_size_cons in Hsize.
    change (total_decoded_size []) with 0%Q in Hsize.
    cbn [check_images].
    destruct (Z.leb_spec (MAX_IMAGES V) (image_count st)); [lia|].
    destruct (Qgtb _ _) eqn:Hgt; [done|]. apply Qgtb_false in Hgt. lra.
  - rewrite <- !app_comm_cons in *. rewrite total_decoded_size_cons in Hsize.
    cbn [length] in Hcount. cbn [check_images].
    destruct (Z.leb_spec (MAX_IMAGES V) (image_count st)); [lia|].
    destruct source as [media_type' data' | url].
    + destruct (Qgtb _ _) eqn:Hgt; [done|].
      apply IH; cbn [image_count total_image_size]; [lia | lra].
    + change (decoded_size (Url url)) with 0%Q in Hsize.
      apply IH; cbn [image_count total_image_size]; [lia | lra].
Qed.

(** The count error: one image more than the maximum, the running sum
    staying within the ceiling at the base64 images before it. *)
Lemma check_images_count_exceeded st images :
  MAX_IMAGES V < image_count st + Z.of_nat (length images) →
  images ≠ [] →
  (∀ pre media_type data post,
      images = pre ++ Base64 media_type data :: post →
      image_count st + Z.of_nat (length pre) < MAX_IMAGES V →
      (total_image_size st + total_decoded_size (pre ++ [Base64 media_type data])
       <= size_ceiling V)%Q) →
  check_images V st images = Raise (too_many_images V).
Proof.
  revert st. induction images as [|source images IH]; intros st Hcount Hne Hsizes; [done|].
  cbn [length] in Hcount. cbn [check_images].
  destruct (Z.leb_spec (MAX_IMAGES V) (image_count st)); [done|].
  assert (images ≠ []) by (intros ->; simpl in Hcount; lia).
  assert (Hrest : ∀ total,
            (total == total_image_size st + decoded_size source)%Q →
            ∀ pre media_type data post,
              images = pre ++ Base64 media_type data :: post →
              image_count st + 1 + Z.of_nat (length pre) < MAX_IMAGES V →
              (total + total_decoded_size (pre ++ [Base64 media_type data])
               <= size_ceiling V)%Q).
  { intros total Htotal pre media_type data post -> Hpre.
    specialize (Hsizes (source :: pre) media_type data post eq_refl).
    cbn [length] in Hsizes. rewrite <- app_comm_cons, total_decoded_size_cons in Hsizes.
    specialize (Hsizes ltac:(lia)). lra. }
  destruct source as [media_type data | url].
  - destruct (Qgtb _ _) eqn:Hgt.
    { apply Qgtb_true in Hgt.
      specialize (Hsizes [] media_type data images eq_refl). cbn [length app] in Hsizes.
      rewrite total_decoded_size_cons in Hsizes.
      change (total_decoded_size []) with 0%Q in Hsizes.
      specialize (Hsizes ltac:(lia)). lra. }
    apply IH; cbn [image_count total_image_size]; [lia | done |].
    apply Hrest. lra.
  - apply IH; cbn [image_count total_image_size]; [lia | done |].
    apply Hrest. change (decoded_size (Url url)) with 0%Q. lra.
Qed.

(** Success: within the count, the running sum within the ceiling at
    every base64 image. *)
Lemma check_images_running st images :
  image_count st + Z.of_nat (length images) ≤ MAX_IMAGES V →
  (∀ pre media_type data post,
      images = pre ++ Base64 media_type data :: post →
      (total_image_size st + total_decoded_size (pre ++ [Base64 media_type data])
       <= size_ceiling V)%Q) →
  ∃ st', check_images V st images = Ret st' ∧
         image_count st' = image_count st + Z.of_nat (length images).
Proof.
  revert st. induction images as [|source images IH]; intros st Hcount Hsizes.
  - exists st. simpl. split; [done | lia].
  - cbn [length] in Hcount. cbn [check_images].
    destruct (Z.leb_spec (MAX_IMAGES V) (image_count st)); [lia|].
    assert (Hrest : ∀ total,
              (total == total_image_size st + decoded_size source)%Q →
              ∀ pre media_type data post,
                images = pre ++ Base64 media_type data :: post →
                (total + total_decoded_size (pre ++ [Base64 media_type data])
                 <= size_ceiling V)%Q).
    { intros total Htotal pre media_type data post ->.
      specialize (Hsizes (source :: pre) media_type data post eq_refl).
      rewrite <- app_comm_cons, total_decoded_size_cons in Hsizes. lra. }
    destruct source as [media_type data | url].
    + destruct (Qgtb _ _) eqn:Hgt.
      { apply Qgtb_true in Hgt.
        specialize (Hsizes [] media_type data images eq_refl). cbn [app] in Hsizes.
        rewrite total_decoded_size_cons in Hsizes.
        change (total_decoded_size []) with 0%Q in Hsizes. lra. }
      destruct (IH {| image_count := image_count st + 1;
                      total_image_size :=
                        total_image_size st + decoded_size (Base64 media_type data) |})
        as (st' & Hrun & Hn); cbn [image_count total_image_size] in *;
        [lia | apply Hrest; lra |].
      exists st'. split; [done | cbn [length]; lia].
    + destruct (IH {| image_count := image_count st + 1;
                      total_image_size := total_image_size st |})
        as (st' & Hrun & Hn); cbn [image_count total_image_size] in *;
        [lia | apply Hrest; change (decoded_size (Url url)) with 0%Q; lra |].
      exists st'. split; [done | cbn [length]; lia].
Qed.

(** After the images were all accepted, the running sum was within the
    ceiling at every base64 image, whatever the ceiling. *)
Lemma check_images_ret_running st pre media_type data post st' :
  check_images V st (pre ++ Base64 media_type data :: post) = Ret st' →
  (total_image_size st + total_decoded_size (pre ++ [Base64 media_type data])
   <= size_ceiling V)%Q.
Proof.
  revert st. induction pre as [|source pre IH]; intros st.
  - cbn [app check_images]. rewrite total_decoded_size_cons.
    change (total_decoded_size []) with 0%Q.
    destruct (Z.leb_spec (MAX_IMAGES V) (image_count st)); [done|].
    destruct (Qgtb _ _) eqn:Hgt; [done|]. apply Qgtb_false in Hgt. intros _. lra.
  - rewrite <- !app_comm_cons, total_decoded_size_cons. cbn [check_images].
    destruct (Z.leb_spec (MAX_IMAGES V) (image_count st)); [done|].
    destruct source as [media_type' data' | url].
    + destruct (Qgtb _ _) eqn:Hgt; [done|].
      intros Hrun%IH. cbn [image_count total_image_size] in Hrun. lra.
    + intros Hrun%IH. cbn [image_count total_image_size] in Hrun.
      change (decoded_size (Url url)) with 0%Q. lra.
Qed.

End Normaliser.

(** ** Request assembly *)

Section Assembly.

Variable rt : runtime.
Variable V : Valves.

Lemma clean_body_lookup (body : gmap string pyval) k :
  k ≠ "user" → k ≠ "chat_id" → k ≠ "title" → clean_body body !! k = body !! k.
Proof.
  intros Huser Hchat Htitle. unfold clean_body.
  by rewrite !lookup_delete_ne by done.
Qed.

(** The bookkeeping keys are gone from the options bag that is read. *)
Lemma clean_body_stripped (body : gmap string pyval) k :
  k = "user" ∨ k = "chat_id" ∨ k = "title" → clean_body body !! k = None.
Proof.
  unfold clean_body. intros [-> | [-> | ->]].
  - rewrite !lookup_delete_ne by done. apply lookup_delete_eq.
  - rewrite lookup_delete_ne by done. apply lookup_delete_eq.
  - apply lookup_delete_eq.
Qed.

Lemma build_payload_system model_id processed body system_message :
  build_payload rt V model_id processed body system_message !! "system"
  = if py_truthy system_message then Some (PStr (py_str rt system_message)) else None.
Proof.
  unfold build_payload. destruct (py_truthy system_message).
  - apply lookup_insert_eq.
  - reflexivity.
Qed.

Lemma build_payload_other model_id processed body system_message k :
  k ≠ "system" →
  build_payload rt V model_id processed body system_message !! k
  = build_payload rt V model_id processed body PNone !! k.
Proof.
  intros Hk. unfold build_payload. simpl py_truthy. cbv iota.
  destruct (py_truthy system_message); [|done].
  by rewrite lookup_insert_ne.
Qed.

Lemma build_payload_messages model_id processed body system_message :
  build_payload rt V model_id processed body system_message !! "messages"
  = Some (PList processed).
Proof. by rewrite build_payload_other. Qed.

Lemma assemble_inv model_id messages body payload :
  assemble rt V model_id messages body = Ret payload →
  ∃ system_message turns st processed,
    pop_system_message messages = Ret (system_message, turns) ∧
    process_messages V counters0 turns = Ret (st, processed) ∧
    payload = build_payload rt V model_id processed (clean_body body) system_message.
Proof.
  unfold assemble.
  destruct (pop_system_message messages) as [[system_message turns]|]; simpl; [|done].
  destruct (process_messages V counters0 turns) as [[st processed]|] eqn:Hturns;
    simpl; [|done].
  intros [= <-]. by exists system_message, turns, st, processed.
Qed.

Lemma carries_param_intro (body payload : gmap string pyval) key field dflt :
  payload !! field = Some (default dflt (body !! key)) →
  carries_param body payload key field dflt.
Proof.
  intros H. split.
  - intros Hnone. by rewrite H, Hnone.
  - intros v Hv. by rewrite H, Hv.
Qed.

(** C6. In the assembled request each generation parameter is the
    caller's value when the options bag has the key, exactly as given,
    and the default otherwise: the configured valve for max tokens,
    temperature, top-k and top-p, the empty list for the stop sequences
    (read from the key "stop") and [False] for stream. *)
Theorem generation_params_default_or_override model_id messages body payload :
  assemble rt V model_id messages body = Ret payload →
  carries_param body payload "max_tokens" "max_tokens" (PInt (DEFAULT_MAX_TOKENS V)) ∧
  carries_param body payload "temperature" "temperature" (PFloat (DEFAULT_TEMPERATURE V)) ∧
  carries_param body payload "top_k" "top_k" (PInt (DEFAULT_TOP_K V)) ∧
  carries_param body payload "top_p" "top_p" (PFloat (DEFAULT_TOP_P V)) ∧
  carries_param body payload "stop" "stop_sequences" (PList []) ∧
  carries_param body payload "stream" "stream" (PBool false).
Proof.
  intros (system_message & turns & st & processed & _ & _ & ->)%assemble_inv.
  split; [|split; [|split; [|split; [|split]]]]; apply carries_param_intro;
    (rewrite build_payload_other by done);
    (rewrite <- (clean_body_lookup body) by done); reflexivity.
Qed.

(** C7. When the extracted system content is present (a true value: a
    non-empty string, a non-empty list, ...) the request carries it under
    "system", coerced to a string, which for a string is the string
    itself; when it is absent ([None], or an empty value) the request
    has no "system" key at all.  So the field is never null and, for
    string content, never the empty string. *)
Theorem system_field_attached_or_omitted
    model_id messages body payload system_message turns :
  pop_system_message messages = Ret (system_message, turns) →
  assemble rt V model_id messages body = Ret payload →
  (py_truthy system_message = true →
     payload !! "system" = Some (PStr (py_str rt system_message))) ∧
  (∀ s, system_message = PStr s → s ≠ "" → payload !! "system" = Some (PStr s)) ∧
  (py_truthy system_message = false → payload !! "system" = None) ∧
  (system_message = PNone → payload !! "system" = None) ∧
  payload !! "system" ≠ Some PNone ∧
  (∀ s, system_message = PStr s → payload !! "system" ≠ Some (PStr "")).
Proof.
  intros Hpop (system_message' & turns' & st & processed & Hpop' & _ & ->)%assemble_inv.
  rewrite Hpop in Hpop'. injection Hpop' as <- <-.
  rewrite build_payload_system.
  repeat split.
  - by intros ->.
  - intros s -> Hs. simpl.
    destruct (String.eqb_spec s ""); [done|]. reflexivity.
  - by intros ->.
  - by intros ->.
  - by destruct (py_truthy system_message).
  - intros s ->. simpl.
    destruct (String.eqb_spec s ""); simpl; [done|]. congruence.
Qed.

End Assembly.

(** ** The entry point *)

Section EntryPoint.

Variable rt : runtime.
Variable self : Pipeline.

Lemma get_completion_returns payload :
  ∃ v, get_completion rt self payload = Ret v ∧
       ∀ e, get_completion_try rt self payload = Raise e → v = completion_error e.
Proof.
  unfold get_completion.
  destruct (get_completion_try rt self payload) as [v|e]; simpl.
  - exists v. split; [done|]. intros e [=].
  - exists (completion_error e). split; [done|]. by intros e' [= <-].
Qed.

Lemma stream_response_chunks payload :
  escaped (stream_response rt self payload) = None ∧
  chunks (stream_response rt self payload)
  = with_error_chunk (stream_response_try rt self payload).
Proof.
  unfold stream_response, yield_except, with_error_chunk.
  destruct (stream_response_try rt self payload) as [cs [e|]]; simpl; [done|].
  by rewrite app_nil_r.
Qed.

Lemma payload_has_stream model_id messages body payload :
  assemble rt (valves self) model_id messages body = Ret payload →
  py_getitem (PDict payload) "stream" = Ret (default PNone (payload !! "stream")).
Proof.
  intros (system_message & turns & st & processed & _ & _ & ->)%assemble_inv.
  simpl. by rewrite build_payload_other.
Qed.

Lemma pipe_validation_failure user_message model_id messages body e :
  assemble rt (valves self) model_id messages body = Raise e →
  pipe rt self user_message model_id messages body = Ret (Text (pipeline_error e)).
Proof. intros H. unfold pipe, pipe_try. by rewrite H. Qed.

Lemma pipe_dispatch user_message model_id messages body payload :
  assemble rt (valves self) model_id messages body = Ret payload →
  pipe rt self user_message model_id messages body
  = if wants_stream payload then Ret (Stream (stream_response rt self payload))
    else completion ← get_completion rt self payload; Ret (Text completion).
Proof.
  intros H. unfold pipe, pipe_try. rewrite H. cbn [mbind py_bind].
  rewrite (payload_has_stream _ _ _ _ H). cbn [mbind py_bind].
  fold (wants_stream payload).
  destruct (wants_stream payload); [done|].
  by destruct (get_completion_returns payload) as (v & -> & _).
Qed.

Lemma get_completion_try_failed payload e :
  requests_post rt base_url (headers self) payload false = Failed e →
  get_completion_try rt self payload = Raise e.
Proof. intros H. unfold get_completion_try. by rewrite H. Qed.

Lemma get_completion_try_status payload r :
  requests_post rt base_url (headers self) payload false = Response r →
  status_code r ≠ 200 →
  get_completion_try rt self payload = Raise (api_error r).
Proof.
  intros H Hstatus. unfold get_completion_try. rewrite H.
  by destruct (Z.eqb_spec (status_code r) 200).
Qed.

Lemma get_completion_try_parse payload r e :
  requests_post rt base_url (headers self) payload false = Response r →
  status_code r = 200 → json r = Raise e →
  get_completion_try rt self payload = Raise e.
Proof.
  intros H Hstatus Hjson. unfold get_completion_try.
  by rewrite H, Hstatus, Hjson.
Qed.

Lemma stream_response_try_failed payload e :
  requests_post rt base_url (headers self) payload true = Failed e →
  stream_response_try rt self payload = {| chunks := []; escaped := Some e |}.
Proof. intros H. unfold stream_response_try. by rewrite H. Qed.

Lemma stream_response_try_status payload r :
  requests_post rt base_url (headers self) payload true = Response r →
  status_code r ≠ 200 →
  stream_response_try rt self payload
  = {| chunks := []; escaped := Some (api_error r) |}.
Proof.
  intros H Hstatus. unfold stream_response_try. rewrite H.
  by destruct (Z.eqb_spec (status_code r) 200).
Qed.

Lemma stream_response_try_ok payload r :
  requests_post rt base_url (headers self) payload true = Response r →
  status_code r = 200 →
  stream_response_try rt self payload = consume (events r) (broken r).
Proof. intros H Hstatus. unfold stream_response_try. by rewrite H, Hstatus. Qed.

(** C1. [pipe] always returns: a value, or a generator that ends by
    returning.  A validation failure while the request is assembled is
    returned as the string "Error: ...".  Without streaming, a transport
    failure, a status other than 200 and a body that does not parse are
    returned as the string "Error getting completion: ...".  With
    streaming, the same failures before the first event make the
    generator yield the single chunk "Error during streaming: ...", and a
    failure while events are consumed adds that chunk after the chunks
    already produced, as the last one. *)
Theorem pipe_never_raises user_message model_id messages body :
  let result := pipe rt self user_message model_id messages body in
  let assembled := assemble rt (valves self) model_id messages body in
  let post := requests_post rt base_url (headers self) in
  (∃ out, result = Ret out ∧
          match out with
          | Text _ => True
          | Stream g => escaped g = None
          end) ∧
  (∀ e, assembled = Raise e → result = Ret (Text (pipeline_error e))) ∧
  (∀ payload, assembled = Ret payload → wants_stream payload = false →
     ∃ v, result = Ret (Text v) ∧
          (∀ e, post payload false = Failed e → v = completion_error e) ∧
          (∀ r, post payload false = Response r → status_code r ≠ 200 →
                v = completion_error (api_error r)) ∧
          (∀ r e, post payload false = Response r → status_code r = 200 →
                  json r = Raise e → v = completion_error e)) ∧
  (∀ payload, assembled = Ret payload → wants_stream payload = true →
     ∃ g, result = Ret (Stream g) ∧ escaped g = None ∧
          (∀ e, post payload true = Failed e → chunks g = [streaming_error e]) ∧
          (∀ r, post payload true = Response r → status_code r ≠ 200 →
                chunks g = [streaming_error (api_error r)]) ∧
          (∀ r, post payload true = Response r → status_code r = 200 →
                chunks g = with_error_chunk (consume (events r) (broken r))) ∧
          (∀ r carried e, post payload true = Response r → status_code r = 200 →
                Forall2 carries (events r) carried → broken r = Some e →
                chunks g = carried ++ [streaming_error e])).
Proof.
  intros result assembled post. subst result assembled post.
  split; [|split; [|split]].
  - destruct (assemble rt (valves self) model_id messages body) as [payload|e] eqn:H.
    + rewrite (pipe_dispatch _ _ _ _ _ H).
      destruct (wants_stream payload).
      * eexists. split; [done|]. apply stream_response_chunks.
      * destruct (get_completion_returns payload) as (v & -> & _).
        by exists (Text v).
    + rewrite (pipe_validation_failure _ _ _ _ _ H). by eexists.
  - intros e H. by apply pipe_validation_failure.
  - intros payload H Hstream.
    rewrite (pipe_dispatch _ _ _ _ _ H), Hstream.
    destruct (get_completion_returns payload) as (v & -> & Herr).
    exists v. split; [done|]. repeat split.
    + intros e Hpost. by apply Herr, get_completion_try_failed.
    + intros r Hpost Hstatus. by apply Herr, get_completion_try_status.
    + intros r e Hpost Hstatus Hjson. by eapply Herr, get_completion_try_parse.
  - intros payload H Hstream.
    rewrite (pipe_dispatch _ _ _ _ _ H), Hstream.
    destruct (stream_response_chunks payload) as [Hend Hchunks].
    eexists. split; [done|]. split; [done|]. rewrite Hchunks. repeat split.
    + intros e Hpost. by rewrite (stream_response_try_failed _ _ Hpost).
    + intros r Hpost Hstatus. by rewrite (stream_response_try_status _ _ Hpost Hstatus).
    + intros r Hpost Hstatus. by rewrite (stream_response_try_ok _ _ Hpost Hstatus).
    + intros r carried e Hpost Hstatus Hcarried Hbroken.
      rewrite (stream_response_try_ok _ _ Hpost Hstatus).
      by rewrite (consume_carried _ _ _ Hcarried), Hbroken.
Qed.

End EntryPoint.

(** ** The two image limits, seen from the entry point *)

Lemma split1_two sep s before after :
  split1 sep s = [before; after] →
  s = before +:+ String sep after ∧ lacks sep before = true.
Proof.
  revert before. induction s as [|c s IH]; intros before; [done|].
  cbn [split1]. destruct (Ascii.eqb_spec c sep) as [->|Hc].
  - by intros [= <- <-].
  - destruct (split1 sep s) as [|h t] eqn:Hsplit; [done|].
    intros [= <- ->]. destruct (IH h eq_refl) as [-> Hlacks].
    split; [done|]. cbn [lacks]. rewrite Hlacks.
    by destruct (Ascii.eqb_spec c sep).
Qed.

Section Limits.

Variable rt : runtime.
Variable self : Pipeline.

Lemma assemble_views model_id messages body system_message msgs turns :
  pop_system_message messages = Ret (system_message, msgs) →
  Forall2 views_turn msgs turns →
  assemble rt (valves self) model_id messages body
  = st ← check_images (valves self) counters0 (turn_images turns);
    Ret (build_payload rt (valves self) model_id (map normalized turns) (clean_body body)
           system_message).
Proof.
  intros Hpop Hviews. unfold assemble. rewrite Hpop. cbn [mbind py_bind].
  rewrite (process_messages_views _ _ _ _ Hviews).
  by destruct (check_images (valves self) counters0 (turn_images turns)).
Qed.

Lemma is_image_item_views item content :
  views_item item content →
  List.filter is_image_item [item] = match content with
                                     | ImageItem _ => [item]
                                     | _ => []
                                     end.
Proof.
  intros [d text Htype Htext | d image_data source Htype Hdata Himage
         | d tag Htype Hnot_text Hnot_image]; simpl; rewrite Htype; [done..|].
  by rewrite Hnot_image.
Qed.

Lemma image_items_length_items items content :
  Forall2 views_item items content →
  length (List.filter is_image_item items) = length (flat_map item_images content).
Proof.
  induction 1 as [|item kind items content Hitem _ IH]; [done|].
  change (item :: items) with ([item] ++ items).
  rewrite List.filter_app, (is_image_item_views _ _ Hitem).
  simpl flat_map. rewrite !length_app, IH. by destruct kind.
Qed.

Lemma image_items_length msgs turns :
  Forall2 views_turn msgs turns →
  length (image_items msgs) = length (turn_images turns).
Proof.
  unfold image_items, turn_images.
  induction 1 as [|message turn msgs turns Hturn _ IH]; [done|].
  simpl flat_map. rewrite List.filter_app, !length_app, IH. f_equal.
  destruct Hturn as [d role items content Hrole Hcontent Hitems | d role Hrole Hplain];
    simpl.
  - rewrite Hcontent. by apply image_items_length_items.
  - by destruct (d !! "content") as [[]|].
Qed.

Lemma image_blocks_of_items content :
  List.filter is_image_block (flat_map item_blocks content)
  = map image_block (flat_map item_images content).
Proof.
  induction content as [|item content IH]; [done|].
  simpl flat_map. rewrite List.filter_app, map_app, IH. f_equal.
  by destruct item as [text | [media_type data | url] |].
Qed.

Lemma image_blocks_of_turns turns :
  List.filter is_image_block (turn_blocks turns) = map image_block (turn_images turns).
Proof.
  unfold turn_blocks, turn_images.
  induction turns as [|turn turns IH]; [done|].
  simpl flat_map. by rewrite List.filter_app, map_app, IH, image_blocks_of_items.
Qed.

Lemma request_blocks_normalized model_id turns body system_message :
  request_blocks (build_payload rt (valves self) model_id (map normalized turns) body system_message)
  = turn_blocks turns.
Proof.
  unfold request_blocks. rewrite build_payload_messages.
  unfold turn_blocks, processed_blocks. induction turns as [|turn turns IH]; [done|].
  simpl. by rewrite IH.
Qed.

Lemma assemble_within model_id messages body system_message msgs turns :
  pop_system_message messages = Ret (system_message, msgs) →
  Forall2 views_turn msgs turns →
  Z.of_nat (length (turn_images turns)) ≤ MAX_IMAGES (valves self) →
  (total_decoded_size (turn_images turns) <= size_ceiling (valves self))%Q →
  assemble rt (valves self) model_id messages body
  = Ret (build_payload rt (valves self) model_id (map normalized turns) (clean_body body)
           system_message).
Proof.
  intros Hpop Hviews Hcount Hsize.
  rewrite (assemble_views _ _ _ _ _ _ Hpop Hviews).
  destruct (check_images_within (valves self) counters0 (turn_images turns))
    as (st & -> & _); simpl; [lia | lra | done].
Qed.

Lemma assemble_popped model_id messages body system_message msgs :
  pop_system_message messages = Ret (system_message, msgs) →
  assemble rt (valves self) model_id messages body
  = '(_, processed_messages) ← process_messages (valves self) counters0 msgs;
    Ret (build_payload rt (valves self) model_id processed_messages (clean_body body)
           system_message).
Proof. intros Hpop. unfold assemble. by rewrite Hpop. Qed.

(** An assembled request went through the two limits: its image blocks
    are the conversions of the image items, and [check_images] accepted
    their sources. *)
Lemma assemble_sources model_id messages body system_message msgs payload :
  pop_system_message messages = Ret (system_message, msgs) →
  assemble rt (valves self) model_id messages body = Ret payload →
  ∃ sources st,
    check_images (valves self) counters0 sources = Ret st ∧
    List.filter is_image_block (request_blocks payload) = map image_block sources ∧
    Forall2 converts (image_items msgs) (map image_block sources).
Proof.
  intros Hpop. rewrite (assemble_popped _ _ _ _ _ Hpop).
  destruct (process_messages (valves self) counters0 msgs) as [[st processed]|] eqn:Hrun;
    cbn [mbind py_bind]; [|done].
  intros [= <-].
  apply process_messages_inv in Hrun as (sources & Hcheck & Hblocks & Hconverts).
  exists sources, st. unfold request_blocks. by rewrite build_payload_messages.
Qed.

(** The two layouts of a converted image item. *)
Lemma converts_layout item block :
  converts item block →
  ∃ (d : gmap string pyval) image_data url,
    item = PDict d ∧ d !! "image_url" = Some image_data ∧
    py_getitem image_data "url" = Ret (PStr url) ∧
    ((String.prefix "data:image" url = false ∧
      block = PDict {[ "type" := PStr "image";
                       "source" := PDict {[ "type" := PStr "url";
                                            "url" := PStr url ]} ]}) ∨
     (String.prefix "data:image" url = true ∧
      ∃ mime_type media_type data,
        url = mime_type +:+ "," +:+ data ∧ lacks "," mime_type = true ∧
        block = PDict {[ "type" := PStr "image";
                         "source" := PDict {[ "type" := PStr "base64";
                                              "media_type" := PStr media_type;
                                              "data" := PStr data ]} ]})).
Proof.
  intros (d & image_data & -> & Hdata & Hblock).
  exists d, image_data. revert Hblock. unfold process_image, process_image_try.
  destruct (py_getitem image_data "url") as [url|]; cbn [mbind py_bind try_except];
    [|done].
  destruct url as [| | | |url| |]; cbn [py_startswith mbind py_bind try_except];
    try done.
  destruct (String.prefix "data:image" url) eqn:Hprefix.
  - cbn [py_split1 mbind py_bind].
    destruct (split1 "," url) as [|mime_type [|data [|extra parts]]] eqn:Hsplit;
      cbn [unpack2 mbind py_bind try_except]; try done.
    destruct (index (split ":" mime_type) 1) as [after_colon|];
      cbn [mbind py_bind try_except]; [|done].
    destruct (index (split ";" after_colon) 0) as [media_type|];
      cbn [mbind py_bind try_except]; [|done].
    intros [= <-]. exists url. do 3 (split; [done|]). right. split; [done|].
    apply split1_two in Hsplit as [-> Hlacks].
    by exists mime_type, media_type, data.
  - intros [= <-]. exists url. do 3 (split; [done|]). by left.
Qed.

(** A total within the ceiling keeps every running sum within it. *)
Lemma running_sum_within_total images (ceiling : Q) :
  (total_decoded_size images <= ceiling)%Q →
  ∀ pre media_type data post,
    images = pre ++ Base64 media_type data :: post →
    (total_decoded_size (pre ++ [Base64 media_type data]) <= ceiling)%Q.
Proof.
  intros Htotal pre media_type data post ->.
  pose proof (total_decoded_size_prefix pre (Base64 media_type data) post). lra.
Qed.

Lemma assemble_running model_id messages body system_message msgs turns :
  pop_system_message messages = Ret (system_message, msgs) →
  Forall2 views_turn msgs turns →
  Z.of_nat (length (turn_images turns)) ≤ MAX_IMAGES (valves self) →
  (∀ pre media_type data post,
      turn_images turns = pre ++ Base64 media_type data :: post →
      (total_decoded_size (pre ++ [Base64 media_type data])
       <= size_ceiling (valves self))%Q) →
  assemble rt (valves self) model_id messages body
  = Ret (build_payload rt (valves self) model_id (map normalized turns) (clean_body body)
           system_message).
Proof.
  intros Hpop Hviews Hcount Hsizes.
  rewrite (assemble_views _ _ _ _ _ _ Hpop Hviews).
  destruct (check_images_running (valves self) counters0 (turn_images turns))
    as (st & -> & _); cbn [image_count total_image_size counters0]; [lia | | done].
  intros pre media_type data post Hsplit.
  specialize (Hsizes pre media_type data post Hsplit). lra.
Qed.

(** C4, as the code has it. Let N be the number of items tagged
    "image_url" in the list contents of the turns left once a leading
    system turn is taken out (the items of that turn are not counted).
    For any call: whenever a request is assembled, N is within the maximum
    (when it is not zero) and the image blocks of the request are, one for
    one and in order, the conversions of the N items:
    {type: image, source: {type: url, url}} for a URL that does not start
    with "data:image", and {type: image, source: {type: base64,
    media_type, data}} with, as data, the text after the first comma
    otherwise.  For any call from which the system turn can be taken out:
    if N exceeds MAX_IMAGES (and is not zero), no request is assembled and
    [pipe] returns an error string.  If moreover the turns are well
    formed: if N exceeds MAX_IMAGES and the sizes summed up to each inlined
    image among the first MAX_IMAGES images stay within the size ceiling,
    the error is the one naming the configured maximum; if N is at most
    MAX_IMAGES and the running sum stays within the ceiling at every
    inlined image, the request is assembled with the normalised turns and
    all N images. *)
Theorem image_count_limit user_message model_id messages body :
  (∀ payload,
     assemble rt (valves self) model_id messages body = Ret payload →
     ∃ system_message msgs,
       pop_system_message messages = Ret (system_message, msgs) ∧
       (0 < Z.of_nat (length (image_items msgs)) →
        Z.of_nat (length (image_items msgs)) ≤ MAX_IMAGES (valves self)) ∧
       Z.of_nat (length (List.filter is_image_block (request_blocks payload)))
       = Z.of_nat (length (image_items msgs)) ∧
       Forall2 converts (image_items msgs)
         (List.filter is_image_block (request_blocks payload)) ∧
       Forall2
         (λ item block,
            ∃ (d : gmap string pyval) image_data url,
              item = PDict d ∧ d !! "image_url" = Some image_data ∧
              py_getitem image_data "url" = Ret (PStr url) ∧
              ((String.prefix "data:image" url = false ∧
                block = PDict {[ "type" := PStr "image";
                                 "source" := PDict {[ "type" := PStr "url";
                                                      "url" := PStr url ]} ]}) ∨
               (String.prefix "data:image" url = true ∧
                ∃ mime_type media_type data,
                  url = mime_type +:+ "," +:+ data ∧ lacks "," mime_type = true ∧
                  block = PDict {[ "type" := PStr "image";
                                   "source" := PDict {[ "type" := PStr "base64";
                                                        "media_type" := PStr media_type;
                                                        "data" := PStr data ]} ]})))
         (image_items msgs) (List.filter is_image_block (request_blocks payload))) ∧
  (∀ media_type data,
     image_block (Base64 media_type data)
     = PDict {[ "type" := PStr "image";
                "source" := PDict {[ "type" := PStr "base64";
                                     "media_type" := PStr media_type;
                                     "data" := PStr data ]} ]}) ∧
  (∀ url,
     image_block (Url url)
     = PDict {[ "type" := PStr "image";
                "source" := PDict {[ "type" := PStr "url"; "url" := url ]} ]}) ∧
  (∀ system_message msgs,
     pop_system_message messages = Ret (system_message, msgs) →
     (MAX_IMAGES (valves self) < Z.of_nat (length (image_items msgs)) →
      0 < Z.of_nat (length (image_items msgs)) →
        ∃ e, assemble rt (valves self) model_id messages body = Raise e ∧
             pipe rt self user_message model_id messages body
             = Ret (Text (PStr ("Error: " +:+ str_exn e)))) ∧
     (∀ turns,
        Forall2 views_turn msgs turns →
        length (turn_images turns) = length (image_items msgs) ∧
        (MAX_IMAGES (valves self) < Z.of_nat (length (image_items msgs)) →
         0 < Z.of_nat (length (image_items msgs)) →
           (∀ pre media_type data post,
               turn_images turns = pre ++ Base64 media_type data :: post →
               Z.of_nat (length pre) < MAX_IMAGES (valves self) →
               (total_decoded_size (pre ++ [Base64 media_type data])
                <= inject_Z (MAX_IMAGE_SIZE_MB (valves self) * 1024 * 1024))%Q) →
           assemble rt (valves self) model_id messages body
           = Raise (ValueError ("Maximum of " +:+ str_int (MAX_IMAGES (valves self))
                                +:+ " images per API call exceeded")) ∧
           pipe rt self user_message model_id messages body
           = Ret (Text (PStr ("Error: Maximum of " +:+ str_int (MAX_IMAGES (valves self))
                              +:+ " images per API call exceeded")))) ∧
        (Z.of_nat (length (image_items msgs)) ≤ MAX_IMAGES (valves self) →
           (∀ pre media_type data post,
               turn_images turns = pre ++ Base64 media_type data :: post →
               (total_decoded_size (pre ++ [Base64 media_type data])
                <= inject_Z (MAX_IMAGE_SIZE_MB (valves self) * 1024 * 1024))%Q) →
           ∃ payload,
             assemble rt (valves self) model_id messages body = Ret payload ∧
             payload !! "messages" = Some (PList (map normalized turns)) ∧
             List.filter is_image_block (request_blocks payload)
             = map image_block (turn_images turns) ∧
             Z.of_nat (length (List.filter is_image_block (request_blocks payload)))
             = Z.of_nat (length (image_items msgs))))).
Proof.
  fold (size_ceiling (valves self)).
  assert (Hsuccess : ∀ system_message msgs payload,
            pop_system_message messages = Ret (system_message, msgs) →
            assemble rt (valves self) model_id messages body = Ret payload →
            (0 < Z.of_nat (length (image_items msgs)) →
             Z.of_nat (length (image_items msgs)) ≤ MAX_IMAGES (valves self)) ∧
            Z.of_nat (length (List.filter is_image_block (request_blocks payload)))
            = Z.of_nat (length (image_items msgs)) ∧
            Forall2 converts (image_items msgs)
              (List.filter is_image_block (request_blocks payload))).
  { intros system_message msgs payload Hpop Hrun.
    destruct (assemble_sources _ _ _ _ _ _ Hpop Hrun)
      as (sources & st & Hcheck & -> & Hconverts).
    split; [|split; [|done]].
    - apply Forall2_length in Hconverts. rewrite length_map in Hconverts.
      apply check_images_ret in Hcheck as (Hcount & Hmax & _).
      cbn [image_count counters0] in Hcount. rewrite Hconverts. intros Hsome.
      assert (Hne : sources ≠ []) by (intros ->; simpl in Hsome; lia).
      specialize (Hmax Hne). lia.
    - apply Forall2_length in Hconverts. by rewrite Hconverts. }
  split; [|split; [done|split; [done|]]].
  - intros payload Hrun.
    destruct (assemble_inv _ _ _ _ _ _ Hrun) as (system_message & msgs & _ & _ & Hpop & _).
    exists system_message, msgs. split; [done|].
    destruct (Hsuccess _ _ _ Hpop Hrun) as (Hwithin & Hlength & Hconverts).
    do 3 (split; [done|]).
    eapply Forall2_impl; [exact Hconverts|]. intros item block. apply converts_layout.
  - intros system_message msgs Hpop. split.
    + intros Hmany Hsome.
      destruct (assemble rt (valves self) model_id messages body) as [payload|e] eqn:Hrun.
      * destruct (Hsuccess _ _ payload Hpop eq_refl) as [Hwithin _].
        specialize (Hwithin Hsome). lia.
      * exists e. split; [done|]. by apply pipe_validation_failure.
    + intros turns Hviews.
      rewrite (image_items_length _ _ Hviews). split; [done|]. split.
      * intros Hmany Hsome Hsizes.
        assert (Hfail : assemble rt (valves self) model_id messages body
                        = Raise (too_many_images (valves self))).
        { rewrite (assemble_views _ _ _ _ _ _ Hpop Hviews).
          rewrite (check_images_count_exceeded (valves self) counters0 (turn_images turns));
            cbn [image_count total_image_size counters0]; [done | lia | | ].
          - intros Hnil. rewrite Hnil in Hsome. simpl in Hsome. lia.
          - intros pre media_type data post Hsplit Hpre.
            specialize (Hsizes pre media_type data post Hsplit ltac:(lia)). lra. }
        split; [done|]. by rewrite (pipe_validation_failure _ _ _ _ _ _ _ Hfail).
      * intros Hfew Hsizes. eexists. split; [by eapply assemble_running|].
        rewrite build_payload_messages, request_blocks_normalized, image_blocks_of_turns.
        by rewrite length_map.
Qed.

(** C2, as the code has it. The size charged for an image is
    [len(data) * 3 / 4] for a base64 source, a fraction that is not
    rounded up, and nothing for a URL; the sizes are summed image after
    image and the sum is compared, at each base64 image, with
    MAX_IMAGE_SIZE_MB * 1024 * 1024.  For any call: whenever a request is
    assembled, the sum up to each base64 image it carries is at most the
    ceiling (and so is the sum over all images when the ceiling is not
    negative).  For a call whose turns, once the system turn is taken out,
    are well formed: if the running sum exceeds the ceiling at a base64
    image that has fewer than MAX_IMAGES images before it, no request is
    assembled and [pipe] returns the error naming the configured
    megabytes; this is the case when there are at most MAX_IMAGES images,
    the ceiling is not negative and the sum over all images exceeds it.
    If there are at most MAX_IMAGES images and the running sum stays
    within the ceiling at every base64 image, which is the case when the
    sum over all images is at most the ceiling, in particular exactly at
    it, the request is assembled. *)
Theorem image_size_limit user_message model_id messages body :
  ((∀ media_type data,
      decoded_size (Base64 media_type data)
      = (inject_Z (Z.of_nat (String.length data) * 3) / 4)%Q ∧
      image_block (Base64 media_type data)
      = PDict {[ "type" := PStr "image";
                 "source" := PDict {[ "type" := PStr "base64";
                                      "media_type" := PStr media_type;
                                      "data" := PStr data ]} ]}) ∧
   (∀ url,
      decoded_size (Url url) = 0%Q ∧
      image_block (Url url)
      = PDict {[ "type" := PStr "image";
                 "source" := PDict {[ "type" := PStr "url"; "url" := url ]} ]}) ∧
   total_decoded_size [] = 0%Q ∧
   (∀ source images,
      total_decoded_size (source :: images)
      = (decoded_size source + total_decoded_size images)%Q)) ∧
  (∀ payload,
     assemble rt (valves self) model_id messages body = Ret payload →
     ∃ system_message msgs sources,
       pop_system_message messages = Ret (system_message, msgs) ∧
       Forall2 converts (image_items msgs) (map image_block sources) ∧
       List.filter is_image_block (request_blocks payload) = map image_block sources ∧
       (∀ pre media_type data post,
           sources = pre ++ Base64 media_type data :: post →
           (total_decoded_size (pre ++ [Base64 media_type data])
            <= inject_Z (MAX_IMAGE_SIZE_MB (valves self) * 1024 * 1024))%Q) ∧
       (0 ≤ MAX_IMAGE_SIZE_MB (valves self) →
        (total_decoded_size sources
         <= inject_Z (MAX_IMAGE_SIZE_MB (valves self) * 1024 * 1024))%Q)) ∧
  (∀ system_message msgs turns,
     pop_system_message messages = Ret (system_message, msgs) →
     Forall2 views_turn msgs turns →
     length (turn_images turns) = length (image_items msgs) ∧
     (∀ pre media_type data post,
         turn_images turns = pre ++ Base64 media_type data :: post →
         Z.of_nat (length pre) < MAX_IMAGES (valves self) →
         (inject_Z (MAX_IMAGE_SIZE_MB (valves self) * 1024 * 1024)
          < total_decoded_size (pre ++ [Base64 media_type data]))%Q →
         assemble rt (valves self) model_id messages body
         = Raise (ValueError ("Total size of images exceeds "
                              +:+ str_int (MAX_IMAGE_SIZE_MB (valves self))
                              +:+ "MB limit")) ∧
         pipe rt self user_message model_id messages body
         = Ret (Text (PStr ("Error: Total size of images exceeds "
                            +:+ str_int (MAX_IMAGE_SIZE_MB (valves self))
                            +:+ "MB limit")))) ∧
     (Z.of_nat (length (image_items msgs)) ≤ MAX_IMAGES (valves self) →
      0 ≤ MAX_IMAGE_SIZE_MB (valves self) →
      (inject_Z (MAX_IMAGE_SIZE_MB (valves self) * 1024 * 1024)
       < total_decoded_size (turn_images turns))%Q →
         assemble rt (valves self) model_id messages body
         = Raise (ValueError ("Total size of images exceeds "
                              +:+ str_int (MAX_IMAGE_SIZE_MB (valves self))
                              +:+ "MB limit")) ∧
         pipe rt self user_message model_id messages body
         = Ret (Text (PStr ("Error: Total size of images exceeds "
                            +:+ str_int (MAX_IMAGE_SIZE_MB (valves self))
                            +:+ "MB limit")))) ∧
     (Z.of_nat (length (image_items msgs)) ≤ MAX_IMAGES (valves self) →
      (∀ pre media_type data post,
          turn_images turns = pre ++ Base64 media_type data :: post →
          (total_decoded_size (pre ++ [Base64 media_type data])
           <= inject_Z (MAX_IMAGE_SIZE_MB (valves self) * 1024 * 1024))%Q) →
         ∃ payload,
           assemble rt (valves self) model_id messages body = Ret payload ∧
           payload !! "messages" = Some (PList (map normalized turns)) ∧
           List.filter is_image_block (request_blocks payload)
           = map image_block (turn_images turns)) ∧
     (Z.of_nat (length (image_items msgs)) ≤ MAX_IMAGES (valves self) →
      (total_decoded_size (turn_images turns)
       <= inject_Z (MAX_IMAGE_SIZE_MB (valves self) * 1024 * 1024))%Q →
         ∃ payload,
           assemble rt (valves self) model_id messages body = Ret payload ∧
           payload !! "messages" = Some (PList (map normalized turns)) ∧
           List.filter is_image_block (request_blocks payload)
           = map image_block (turn_images turns)) ∧
     (Z.of_nat (length (image_items msgs)) ≤ MAX_IMAGES (valves self) →
      (total_decoded_size (turn_images turns)
       == inject_Z (MAX_IMAGE_SIZE_MB (valves self) * 1024 * 1024))%Q →
         ∃ payload,
           assemble rt (valves self) model_id messages body = Ret payload ∧
           payload !! "messages" = Some (PList (map normalized turns)) ∧
           List.filter is_image_block (request_blocks payload)
           = map image_block (turn_images turns))).
Proof.
  fold (size_ceiling (valves self)).
  split; [by repeat split|]. split.
  - intros payload Hrun.
    destruct (assemble_inv _ _ _ _ _ _ Hrun) as (system_message & msgs & _ & _ & Hpop & _).
    destruct (assemble_sources _ _ _ _ _ _ Hpop Hrun)
      as (sources & st & Hcheck & Hblocks & Hconverts).
    exists system_message, msgs, sources. do 3 (split; [done|]). split.
    + intros pre media_type data post ->.
      apply check_images_ret_running in Hcheck.
      cbn [total_image_size counters0] in Hcheck. lra.
    + intros Hceiling.
      assert (Hzero : (total_image_size counters0 <= size_ceiling (valves self))%Q).
      { unfold size_ceiling. cbn [total_image_size counters0].
        replace 0%Q with (inject_Z 0) by done. rewrite <- Zle_Qle. lia. }
      apply check_images_ret in Hcheck as (_ & _ & Hsize).
      specialize (Hsize Hzero). cbn [total_image_size counters0] in Hsize. lra.
  - intros system_message msgs turns Hpop Hviews.
    pose proof (image_items_length _ _ Hviews) as Hlength.
    assert (Hfailure : ∀ e,
              assemble rt (valves self) model_id messages body = Raise e →
              assemble rt (valves self) model_id messages body = Raise e ∧
              pipe rt self user_message model_id messages body
              = Ret (Text (pipeline_error e))).
    { intros e Hfail. split; [done|]. by apply pipe_validation_failure. }
    assert (Hrunning :
              Z.of_nat (length (turn_images turns)) ≤ MAX_IMAGES (valves self) →
              (∀ pre media_type data post,
                  turn_images turns = pre ++ Base64 media_type data :: post →
                  (total_decoded_size (pre ++ [Base64 media_type data])
                   <= size_ceiling (valves self))%Q) →
              ∃ payload,
                assemble rt (valves self) model_id messages body = Ret payload ∧
                payload !! "messages" = Some (PList (map normalized turns)) ∧
                List.filter is_image_block (request_blocks payload)
                = map image_block (turn_images turns)).
    { intros Hcount Hsizes. eexists. split; [by eapply assemble_running|].
      by rewrite build_payload_messages, request_blocks_normalized, image_blocks_of_turns. }
    split; [done|]. split; [|split; [|split; [|split]]].
    + intros pre media_type data post Hsplit Hpre Hlarge.
      apply (Hfailure (images_too_large (valves self))).
      rewrite (assemble_views _ _ _ _ _ _ Hpop Hviews), Hsplit.
      rewrite (check_images_exceeds (valves self) counters0);
        cbn [image_count total_image_size counters0]; [done | lia | lra].
    + intros Hcount Hceiling Hlarge.
      apply (Hfailure (images_too_large (valves self))).
      rewrite (assemble_views _ _ _ _ _ _ Hpop Hviews).
      rewrite (check_images_too_large (valves self) counters0 (turn_images turns));
        cbn [image_count total_image_size counters0]; [done | lia | | lra].
      unfold size_ceiling. replace 0%Q with (inject_Z 0) by done.
      rewrite <- Zle_Qle. lia.
    + intros Hcount. apply Hrunning. lia.
    + intros Hcount Hsize. apply Hrunning; [lia|].
      by apply running_sum_within_total.
    + intros Hcount Hsize. apply Hrunning; [lia|].
      apply running_sum_within_total. lra.
Qed.

End Limits.

(** ** The properties at sample calls *)

Lemma pipe_never_raises_witness :
  pipe busy_runtime (init "key") "Hi" haiku [turn "user" (PStr "Hi")] ∅
  = Ret (Text (PStr "Error getting completion: API Error: 429 - slow down")) ∧
  (∃ g, pipe busy_runtime (init "key") "Hi" haiku [turn "user" (PStr "Hi")]
          {[ "stream" := PBool true ]} = Ret (Stream g) ∧
        chunks g = [PStr "Error during streaming: API Error: 429 - slow down"] ∧
        escaped g = None) ∧
  (∃ g, pipe flaky_runtime (init "key") "Hi" haiku [turn "user" (PStr "Hi")]
          {[ "stream" := PBool true ]} = Ret (Stream g) ∧
        chunks g = [PStr "Hi"; PStr "Error during streaming: Connection broken"] ∧
        escaped g = None).
Proof.
  split; [|split].
  - destruct (pipe_never_raises busy_runtime (init "key") "Hi" haiku
                [turn "user" (PStr "Hi")] ∅) as (_ & _ & H & _).
    edestruct H as (v & Hresult & _ & Hstatus & _); [reflexivity | reflexivity |].
    rewrite Hresult, (Hstatus busy_response); [reflexivity | reflexivity | discriminate].
  - destruct (pipe_never_raises busy_runtime (init "key") "Hi" haiku
                [turn "user" (PStr "Hi")] {[ "stream" := PBool true ]})
      as (_ & _ & _ & H).
    edestruct H as (g & Hresult & Hend & _ & Hstatus & _); [reflexivity | reflexivity |].
    exists g. split; [done|]. split; [|done].
    rewrite (Hstatus busy_response); [reflexivity | reflexivity | discriminate].
  - destruct (pipe_never_raises flaky_runtime (init "key") "Hi" haiku
                [turn "user" (PStr "Hi")] {[ "stream" := PBool true ]})
      as (_ & _ & _ & H).
    edestruct H as (g & Hresult & Hend & _ & _ & _ & Hbroken);
      [reflexivity | reflexivity |].
    exists g. split; [done|]. split; [|done].
    rewrite (Hbroken flaky_response [PStr "Hi"] (HTTPFailure "Connection broken"));
      [reflexivity | reflexivity | reflexivity | repeat constructor | reflexivity].
Defined.

Lemma unknown_item_dropped_witness :
  process_items (default_valves "") counters0
    [text_item "a"; PDict {[ "type" := PStr "image"; "source" := PStr "x" ]}; text_item "b"]
  = process_items (default_valves "") counters0 [text_item "a"; text_item "b"].
Proof.
  destruct (unknown_item_dropped (default_valves "")
              {[ "type" := PStr "image"; "source" := PStr "x" ]} (PStr "image"))
    as (_ & Hdrop & _); [reflexivity | reflexivity | reflexivity |].
  apply (Hdrop counters0 [text_item "a"] [text_item "b"]).
Defined.

Lemma plain_content_one_text_block_witness :
  normalize_content (default_valves "") counters0
    (PDict {[ "role" := PStr "user"; "content" := PStr "Hi" ]})
  = Ret (counters0, [PDict {[ "type" := PStr "text"; "text" := PStr "Hi" ]}]) ∧
  normalize_content (default_valves "") counters0 (PDict {[ "role" := PStr "user" ]})
  = Ret (counters0, [PDict {[ "type" := PStr "text"; "text" := PStr "" ]}]) ∧
  normalize_content (default_valves "") counters0
    (PDict {[ "role" := PStr "user"; "content" := PInt 7 ]})
  = Ret (counters0, [PDict {[ "type" := PStr "text"; "text" := PInt 7 ]}]) ∧
  ∃ payload,
    assemble ok_runtime (default_valves "") haiku
      [PDict {[ "role" := PStr "user"; "content" := PStr "Hi" ]}] ∅ = Ret payload ∧
    payload !! "messages"
    = Some (PList [PDict {[ "role" := PStr "user";
                            "content" :=
                              PList [PDict {[ "type" := PStr "text";
                                              "text" := PStr "Hi" ]}] ]}]).
Proof.
  split; [|split; [|split]].
  - destruct (plain_content_one_text_block (default_valves "") counters0
                {[ "role" := PStr "user"; "content" := PStr "Hi" ]}) as (_ & H & _);
      [reflexivity|].
    by apply H.
  - destruct (plain_content_one_text_block (default_valves "") counters0
                {[ "role" := PStr "user" ]}) as (_ & _ & H & _); [reflexivity|].
    by apply H.
  - destruct (plain_content_one_text_block (default_valves "") counters0
                {[ "role" := PStr "user"; "content" := PInt 7 ]}) as (_ & H & _);
      [reflexivity|].
    by apply H.
  - destruct (plain_content_one_text_block (default_valves "") counters0
                {[ "role" := PStr "user"; "content" := PStr "Hi" ]})
      as (_ & _ & _ & _ & H); [reflexivity|].
    by apply (H ok_runtime haiku ∅ (PStr "user")).
Defined.

Lemma generation_params_default_or_override_witness :
  ∃ payload,
    assemble ok_runtime (default_valves "") haiku [turn "user" (PStr "Hi")]
      {[ "temperature" := PFloat (1 # 2); "stop" := PList [PStr "END"] ]} = Ret payload ∧
    payload !! "temperature" = Some (PFloat (1 # 2)) ∧
    payload !! "stop_sequences" = Some (PList [PStr "END"]) ∧
    payload !! "max_tokens" = Some (PInt 4096) ∧
    payload !! "stream" = Some (PBool false).
Proof.
  eexists. split; [reflexivity|].
  edestruct (generation_params_default_or_override ok_runtime (default_valves "") haiku
               [turn "user" (PStr "Hi")]
               {[ "temperature" := PFloat (1 # 2); "stop" := PList [PStr "END"] ]})
    as (Htokens & Htemperature & _ & _ & Hstop & Hstream); [reflexivity|].
  split; [apply (proj2 Htemperature); reflexivity|].
  split; [apply (proj2 Hstop); reflexivity|].
  split; [apply (proj1 Htokens) | apply (proj1 Hstream)]; reflexivity.
Defined.

Lemma system_field_attached_or_omitted_witness :
  (∃ payload,
     assemble ok_runtime (default_valves "") haiku
       [turn "system" (PStr "Be terse"); turn "user" (PStr "Hi")] ∅ = Ret payload ∧
     payload !! "system" = Some (PStr "Be terse")) ∧
  (∃ payload,
     assemble ok_runtime (default_valves "") haiku [turn "user" (PStr "Hi")] ∅
     = Ret payload ∧
     payload !! "system" = None).
Proof.
  split; eexists; (split; [reflexivity|]).
  - eapply (system_field_attached_or_omitted ok_runtime (default_valves "") haiku
              [turn "system" (PStr "Be terse"); turn "user" (PStr "Hi")] ∅);
      [reflexivity | reflexivity | reflexivity | discriminate].
  - eapply (system_field_attached_or_omitted ok_runtime (default_valves "") haiku
              [turn "user" (PStr "Hi")] ∅); reflexivity.
Defined.

Lemma process_image_png data :
  process_image (PDict {[ "url" := PStr ("data:image/png;base64," +:+ data) ]})
  = Ret (base64_image "image/png" data).
Proof. reflexivity. Qed.

Lemma views_png_item data :
  views_item (png_item data) (ImageItem (Base64 "image/png" data)).
Proof.
  unfold png_item. eapply views_image; [reflexivity | reflexivity |].
  apply process_image_png.
Qed.

Lemma views_url_item url :
  String.prefix "data:image" url = false →
  views_item (url_item url) (ImageItem (Url (PStr url))).
Proof.
  intros Hplain. unfold url_item. eapply views_image; [reflexivity | reflexivity |].
  unfold process_image, process_image_try.
  rewrite (py_getitem_dict _ "url" (PStr url)) by apply lookup_singleton_eq.
  cbn [mbind py_bind py_startswith]. by rewrite Hplain.
Qed.

Lemma views_turn_items role items content :
  Forall2 views_item items content →
  views_turn (turn role (PList items)) (PStr role, content).
Proof. intros H. unfold turn. by eapply views_list; [reflexivity | reflexivity |]. Qed.

Lemma image_count_limit_witness :
  let call :=
    [PDict {[ "role" := PStr "user";
              "content" :=
                PList [PDict {[ "type" := PStr "image_url";
                                "image_url" :=
                                  PDict {[ "url" := PStr "data:image/png;base64,AAAA" ]} ]};
                       PDict {[ "type" := PStr "text"; "text" := PStr "and" ]};
                       PDict {[ "type" := PStr "image_url";
                                "image_url" :=
                                  PDict {[ "url" := PStr "http://a/2.png" ]} ]}] ]}] in
  pipe ok_runtime (with_limits 1 100) "" haiku call ∅
  = Ret (Text (PStr "Error: Maximum of 1 images per API call exceeded")) ∧
  ∃ payload,
    assemble ok_runtime (valves (with_limits 2 100)) haiku call ∅ = Ret payload ∧
    List.filter is_image_block (request_blocks payload)
    = [PDict {[ "type" := PStr "image";
                "source" := PDict {[ "type" := PStr "base64";
                                     "media_type" := PStr "image/png";
                                     "data" := PStr "AAAA" ]} ]};
       PDict {[ "type" := PStr "image";
                "source" := PDict {[ "type" := PStr "url";
                                     "url" := PStr "http://a/2.png" ]} ]}].
Proof.
  intros call.
  assert (Hviews : Forall2 views_turn call
                     [(PStr "user", [ImageItem (Base64 "image/png" "AAAA");
                                     TextItem (PStr "and");
                                     ImageItem (Url (PStr "http://a/2.png"))])]).
  { repeat constructor. apply (views_turn_items "user").
    constructor; [apply (views_png_item "AAAA")|].
    constructor; [by apply (views_text _ (PStr "and"))|].
    constructor; [by apply (views_url_item "http://a/2.png") | constructor]. }
  split.
  - destruct (image_count_limit ok_runtime (with_limits 1 100) "" haiku call ∅)
      as (_ & _ & _ & Hcall).
    destruct (Hcall PNone call eq_refl) as [_ Htyped].
    destruct (Htyped _ Hviews) as (_ & Hmany & _).
    apply Hmany; [reflexivity | reflexivity |].
    intros pre media_type data post Hsplit _. revert pre media_type data post Hsplit.
    apply running_sum_within_total. by vm_compute.
  - destruct (image_count_limit ok_runtime (with_limits 2 100) "" haiku call ∅)
      as (_ & _ & _ & Hcall).
    destruct (Hcall PNone call eq_refl) as [_ Htyped].
    destruct (Htyped _ Hviews) as (_ & _ & Hfew).
    destruct Hfew as (payload & Hpayload & _ & Hblocks & _); [by vm_compute | |].
    + apply running_sum_within_total. by vm_compute.
    + exists payload. split; [done|]. exact Hblocks.
Defined.

(** C4, as it is worded. With MAX_IMAGES = 1 and a ceiling of 0 MB, a call
    with two inlined images has N = 2 beyond the maximum, and the error
    names the megabyte limit, not the maximum: the size of the first image
    is checked before the second is counted.  And with MAX_IMAGES = 1, two
    image items in the list content of a leading system turn are not
    counted at all: the call goes through. *)
Lemma count_limit_counterexample :
  let image := PDict {[ "type" := PStr "image_url";
                        "image_url" :=
                          PDict {[ "url" := PStr "data:image/png;base64,AAAA" ]} ]} in
  let inlined := [PDict {[ "role" := PStr "user"; "content" := PList [image; image] ]}] in
  let system := [PDict {[ "role" := PStr "system"; "content" := PList [image; image] ]};
                 PDict {[ "role" := PStr "user"; "content" := PStr "Hi" ]}] in
  MAX_IMAGES (valves (with_limits 1 0)) < Z.of_nat (length (image_items inlined)) ∧
  pipe ok_runtime (with_limits 1 0) "" haiku inlined ∅
  = Ret (Text (PStr "Error: Total size of images exceeds 0MB limit")) ∧
  pipe ok_runtime (with_limits 1 0) "" haiku inlined ∅
  ≠ Ret (Text (PStr "Error: Maximum of 1 images per API call exceeded")) ∧
  MAX_IMAGES (valves (with_limits 1 100)) < Z.of_nat (length (image_items system)) ∧
  pipe ok_runtime (with_limits 1 100) "" haiku system ∅ = Ret (Text (PStr "ok")).
Proof.
  intros image inlined system. split; [reflexivity|]. split; [reflexivity|].
  split; [discriminate|]. split; reflexivity.
Qed.

Lemma length_append s1 s2 :
  String.length (s1 +:+ s2) = (String.length s1 + String.length s2)%nat.
Proof. induction s1 as [|c s1 IH]; simpl; [done | by rewrite IH]. Qed.

Lemma filler_length p : Z.of_nat (String.length (filler p)) = Z.pos p.
Proof.
  induction p as [p IH | p IH |]; cbn [filler String.length]; [| |done].
  - rewrite length_append. lia.
  - rewrite length_append. lia.
Qed.

Lemma image_size_limit_witness :
  let big := filler 4194303 in
  let small := filler 1 in
  let block (data : string) :=
    PDict {[ "type" := PStr "image";
             "source" := PDict {[ "type" := PStr "base64";
                                  "media_type" := PStr "image/png";
                                  "data" := PStr data ]} ]} in
  (inject_Z (Z.of_nat (String.length big) * 3) / 4
   + inject_Z (Z.of_nat (String.length small) * 3) / 4
   == inject_Z (3 * 1024 * 1024))%Q ∧
  (∃ payload,
     assemble ok_runtime (valves (with_limits 5 3)) haiku
       [turn "user" (PList [png_item big]); turn "user" (PList [png_item small])] ∅
     = Ret payload ∧
     List.filter is_image_block (request_blocks payload) = [block big; block small]) ∧
  pipe ok_runtime (with_limits 5 3) "" haiku
    [turn "user" (PList [png_item big; png_item small; png_item small])] ∅
  = Ret (Text (PStr "Error: Total size of images exceeds 3MB limit")) ∧
  pipe ok_runtime (with_limits 1 0) "" haiku
    [turn "user" (PList [png_item "AAAA"; png_item "AAAA"])] ∅
  = Ret (Text (PStr "Error: Total size of images exceeds 0MB limit")).
Proof.
  intros big small block.
  assert (Hexact : (total_decoded_size [Base64 "image/png" big; Base64 "image/png" small]
                    == inject_Z (3 * 1024 * 1024))%Q).
  { cbn [total_decoded_size fold_right decoded_size]. unfold big, small.
    rewrite !filler_length. reflexivity. }
  split; [|split; [|split]].
  - unfold big, small. rewrite !filler_length. reflexivity.
  - set (call := [turn "user" (PList [png_item big]); turn "user" (PList [png_item small])]).
    assert (Hviews : Forall2 views_turn call
                       [(PStr "user", [ImageItem (Base64 "image/png" big)]);
                        (PStr "user", [ImageItem (Base64 "image/png" small)])]).
    { constructor; [|constructor; [|constructor]]; apply views_turn_items;
        (constructor; [apply views_png_item | constructor]). }
    destruct (image_size_limit ok_runtime (with_limits 5 3) "" haiku call ∅)
      as (_ & _ & Htyped).
    destruct (Htyped PNone call _ eq_refl Hviews) as (_ & _ & _ & _ & _ & Hat).
    destruct Hat as (payload & Hpayload & _ & Hblocks).
    + rewrite (image_items_length _ _ Hviews). change (2 ≤ 5). lia.
    + exact Hexact.
    + exists payload. split; [done|]. exact Hblocks.
  - set (call := [turn "user" (PList [png_item big; png_item small; png_item small])]).
    assert (Hviews : Forall2 views_turn call
                       [(PStr "user", [ImageItem (Base64 "image/png" big);
                                       ImageItem (Base64 "image/png" small);
                                       ImageItem (Base64 "image/png" small)])]).
    { constructor; [|constructor]. apply views_turn_items.
      repeat (constructor; [apply views_png_item|]). constructor. }
    destruct (image_size_limit ok_runtime (with_limits 5 3) "" haiku call ∅)
      as (_ & _ & Htyped).
    destruct (Htyped PNone call _ eq_refl Hviews) as (_ & Hexceeds & _).
    apply (Hexceeds [Base64 "image/png" big; Base64 "image/png" small]
             "image/png" small []); [reflexivity | reflexivity |].
    cbn [app total_decoded_size fold_right decoded_size]. unfold big, small.
    rewrite !filler_length. reflexivity.
  - set (call := [turn "user" (PList [png_item "AAAA"; png_item "AAAA"])]).
    assert (Hviews : Forall2 views_turn call
                       [(PStr "user", [ImageItem (Base64 "image/png" "AAAA");
                                       ImageItem (Base64 "image/png" "AAAA")])]).
    { constructor; [|constructor]. apply views_turn_items.
      repeat (constructor; [apply views_png_item|]). constructor. }
    destruct (image_size_limit ok_runtime (with_limits 1 0) "" haiku call ∅)
      as (_ & _ & Htyped).
    destruct (Htyped PNone call _ eq_refl Hviews) as (_ & Hexceeds & _).
    apply (Hexceeds [] "image/png" "AAAA" [Base64 "image/png" "AAAA"]);
      reflexivity.
Defined.

(** *** The rounded-up sum is not the sum the adapter checks *)

(** Two inlined images within both limits: the request goes out and the
    answer comes back. *)
Lemma two_png_accepted self data1 data2 :
  2 ≤ MAX_IMAGES (valves self) →
  (decoded_size (Base64 "image/png" data1) + decoded_size (Base64 "image/png" data2)
   <= size_ceiling (valves self))%Q →
  pipe ok_runtime self "" haiku [turn "user" (PList [png_item data1; png_item data2])] ∅
  = Ret (Text (PStr "ok")).
Proof.
  intros Hcount Hsize.
  set (call := [turn "user" (PList [png_item data1; png_item data2])]).
  set (turns := [(PStr "user", [ImageItem (Base64 "image/png" data1);
                                ImageItem (Base64 "image/png" data2)])]).
  assert (Hviews : Forall2 views_turn call turns).
  { repeat constructor. apply views_turn_items.
    repeat constructor; apply views_png_item. }
  assert (Hassembled :
            assemble ok_runtime (valves self) haiku call ∅
            = Ret (build_payload ok_runtime (valves self) haiku (map normalized turns)
                     (clean_body ∅) PNone)).
  { apply (assemble_within ok_runtime self haiku call ∅ PNone call turns);
      [reflexivity | done | done | ].
    unfold turns, turn_images. cbn [flat_map item_images app snd].
    rewrite !total_decoded_size_cons. cbn [total_decoded_size fold_right]. lra. }
  rewrite (pipe_dispatch _ _ _ _ _ _ _ Hassembled).
  reflexivity.
Qed.

(** C2, as it is worded. With a ceiling of 1 MB and two inlined images of
    2 and 1398099 base64 characters, the sizes rounded up per image add
    up to 1048577 bytes, beyond the ceiling of 1048576, and the call
    nevertheless succeeds: the adapter charges 1.5 + 1048574.25 bytes. *)
Lemma ceil_size_counterexample :
  MAX_IMAGE_SIZE_MB (valves (with_limits 5 1)) * 1024 * 1024
  < total_ceil_decoded_size [Base64 "image/png" (filler 2);
                             Base64 "image/png" (filler 1398099)] ∧
  pipe ok_runtime (with_limits 5 1) "" haiku
    [turn "user" (PList [png_item (filler 2); png_item (filler 1398099)])] ∅
  = Ret (Text (PStr "ok")).
Proof.
  split.
  - cbn [total_ceil_decoded_size fold_right ceil_decoded_size].
    rewrite !filler_length. reflexivity.
  - apply two_png_accepted; [by vm_compute|].
    cbn [decoded_size]. rewrite !filler_length. by vm_compute.
Qed.

(** ** Further properties of the adapter *)

(** *** Image sources *)

Lemma split1_found sep before after :
  lacks sep before = true →
  split1 sep (before +:+ String sep after) = [before; after].
Proof.
  induction before as [|c before IH]; simpl.
  - by rewrite Ascii.eqb_refl.
  - intros [Hc Hrest]%andb_prop. apply negb_true_iff in Hc. rewrite Hc.
    by rewrite (IH Hrest).
Qed.

Lemma split1_missing sep s : lacks sep s = true → split1 sep s = [s].
Proof.
  induction s as [|c s IH]; simpl; [done|].
  intros [Hc Hrest]%andb_prop. apply negb_true_iff in Hc. rewrite Hc.
  by rewrite (IH Hrest).
Qed.

Lemma split_missing sep s : lacks sep s = true → split sep s = [s].
Proof.
  induction s as [|c s IH]; simpl; [done|].
  intros [Hc Hrest]%andb_prop. apply negb_true_iff in Hc. rewrite Hc.
  by rewrite (IH Hrest).
Qed.

Lemma split_found sep before after :
  lacks sep before = true →
  split sep (before +:+ String sep after) = before :: split sep after.
Proof.
  induction before as [|c before IH]; simpl.
  - by rewrite Ascii.eqb_refl.
  - intros [Hc Hrest]%andb_prop. apply negb_true_iff in Hc. rewrite Hc.
    by rewrite (IH Hrest).
Qed.

Lemma append_cons c (s1 s2 : string) : String c s1 +:+ s2 = String c (s1 +:+ s2).
Proof. reflexivity. Qed.

Lemma lacks_append c s1 s2 :
  lacks c (s1 +:+ s2) = lacks c s1 && lacks c s2.
Proof.
  induction s1 as [|c' s1 IH]; [done|].
  rewrite append_cons. cbn [lacks]. by rewrite IH, andb_assoc.
Qed.

Lemma append_assoc (s1 s2 s3 : string) : (s1 +:+ s2) +:+ s3 = s1 +:+ (s2 +:+ s3).
Proof. induction s1 as [|c s1 IH]; [done|]. rewrite !append_cons. by f_equal. Qed.

Lemma prefix_append p s t :
  String.prefix p s = true → String.prefix p (s +:+ t) = true.
Proof.
  revert s. induction p as [|c p IH]; intros s; [intros _; by destruct (s +:+ t)|].
  destruct s as [|c' s]; [done|]. rewrite append_cons. simpl.
  destruct (ascii_dec c c'); [apply IH | done].
Qed.

(** X1. A data URI ["data:<media>;base64,<data>"] whose media type starts
    with "image" and holds no comma, colon or semicolon is converted to a
    base64 source carrying exactly that media type and, as data, everything
    after the comma; other keys of the image object are ignored. *)
Theorem process_image_data_uri (d : gmap string pyval) media data :
  d !! "url" = Some (PStr ("data:" +:+ media +:+ ";base64," +:+ data)) →
  String.prefix "image" media = true →
  lacks "," media = true → lacks ":" media = true → lacks ";" media = true →
  process_image (PDict d) = Ret (base64_image media data).
Proof.
  intros Hurl Himage Hcomma Hcolon Hsemi.
  unfold process_image, process_image_try.
  rewrite (py_getitem_dict _ _ _ Hurl). cbn [mbind py_bind py_startswith].
  assert (Hdata : String.prefix "data:image" ("data:" +:+ media +:+ ";base64," +:+ data)
                  = true).
  { change (String.prefix "image" (media +:+ ";base64," +:+ data) = true).
    by apply prefix_append. }
  rewrite Hdata. cbn [py_split1 mbind py_bind].
  replace ("data:" +:+ media +:+ ";base64," +:+ data)
    with (("data:" +:+ media +:+ ";base64") +:+ String "," data)
    by (by rewrite !append_assoc).
  rewrite split1_found
    by (by rewrite !lacks_append, Hcomma).
  cbn [unpack2 mbind py_bind].
  change ("data:" +:+ media +:+ ";base64")
    with ("data" +:+ String ":" (media +:+ ";base64")).
  rewrite split_found by done.
  rewrite split_missing by (by rewrite lacks_append, Hcolon).
  cbn [index lookup list_lookup mbind py_bind].
  change (media +:+ ";base64") with (media +:+ String ";" "base64").
  rewrite split_found by done.
  reflexivity.
Qed.

Lemma process_image_data_uri_witness :
  process_image (PDict {[ "url" := PStr "data:image/jpeg;base64,/9j/4AAQ";
                          "detail" := PStr "high" ]})
  = Ret (base64_image "image/jpeg" "/9j/4AAQ").
Proof.
  apply (process_image_data_uri
           {[ "url" := PStr "data:image/jpeg;base64,/9j/4AAQ"; "detail" := PStr "high" ]}
           "image/jpeg" "/9j/4AAQ"); reflexivity.
Defined.

(** X2. Whenever an image object is converted, the result is one of two
    things: the "url" value is a string that does not start with
    "data:image" and is kept unchanged as a URL source; or it starts with
    "data:image" and the base64 data is the whole text after its first
    comma, so that the part before the comma, the comma and the data put
    together are the URL again. *)
Theorem process_image_inversion image_data block :
  process_image image_data = Ret block →
  ∃ url, py_getitem image_data "url" = Ret (PStr url) ∧
    ((String.prefix "data:image" url = false ∧ block = url_image (PStr url)) ∨
     (String.prefix "data:image" url = true ∧
      ∃ mime_type media_type data,
        url = mime_type +:+ "," +:+ data ∧ lacks "," mime_type = true ∧
        block = base64_image media_type data)).
Proof.
  unfold process_image, process_image_try.
  destruct (py_getitem image_data "url") as [url|]; cbn [mbind py_bind try_except];
    [|done].
  destruct url as [| | | |url| |]; cbn [py_startswith mbind py_bind try_except];
    try done.
  destruct (String.prefix "data:image" url) eqn:Hprefix.
  - cbn [py_split1 mbind py_bind].
    destruct (split1 "," url) as [|mime_type [|data [|extra parts]]] eqn:Hsplit;
      cbn [unpack2 mbind py_bind try_except]; try done.
    destruct (index (split ":" mime_type) 1) as [after_colon|];
      cbn [mbind py_bind try_except]; [|done].
    destruct (index (split ";" after_colon) 0) as [media_type|];
      cbn [mbind py_bind try_except]; [|done].
    intros [= <-]. exists url. split; [done|]. right. split; [done|].
    apply split1_two in Hsplit as [-> Hlacks].
    by exists mime_type, media_type, data.
  - intros [= <-]. exists url. split; [done|]. by left.
Qed.

Lemma process_image_inversion_witness :
  ∃ url, py_getitem (PDict {[ "url" := PStr "data:image/png;base64,iVBOR,w0KGgo" ]}) "url"
         = Ret (PStr url) ∧
    ((String.prefix "data:image" url = false ∧
      base64_image "image/png" "iVBOR,w0KGgo" = url_image (PStr url)) ∨
     (String.prefix "data:image" url = true ∧
      ∃ mime_type media_type data,
        url = mime_type +:+ "," +:+ data ∧ lacks "," mime_type = true ∧
        base64_image "image/png" "iVBOR,w0KGgo" = base64_image media_type data)).
Proof.
  apply (process_image_inversion
           (PDict {[ "url" := PStr "data:image/png;base64,iVBOR,w0KGgo" ]})).
  reflexivity.
Defined.

(** X3. Whatever goes wrong in the conversion of an image object comes
    out as a [ValueError] whose message starts with "Invalid image data: ".
    An object without a "url" key gives the message of the missing key, a
    "data:image" URL without any comma the message of the failed
    unpacking, and a "url" that is not a string the message of the
    missing [startswith]. *)
Theorem process_image_failures image_data :
  (∀ e, process_image image_data = Raise e →
        ∃ cause, e = ValueError ("Invalid image data: " +:+ cause)) ∧
  (∀ d : gmap string pyval, image_data = PDict d → d !! "url" = None →
        process_image image_data = Raise (ValueError "Invalid image data: 'url'")) ∧
  (∀ (d : gmap string pyval) url,
        image_data = PDict d → d !! "url" = Some (PStr url) →
        String.prefix "data:image" url = true → lacks "," url = true →
        process_image image_data
        = Raise (ValueError
                   "Invalid image data: not enough values to unpack (expected 2, got 1)")) ∧
  (∀ (d : gmap string pyval) url,
        image_data = PDict d → d !! "url" = Some url → (∀ s, url ≠ PStr s) →
        process_image image_data
        = Raise (ValueError ("Invalid image data: '" +:+ type_name url
                             +:+ "' object has no attribute 'startswith'"))).
Proof.
  split; [|split; [|split]].
  - intros e. unfold process_image.
    destruct (process_image_try image_data) as [block|cause]; [done|].
    intros [= <-]. by eexists.
  - intros d -> Hurl. unfold process_image, process_image_try.
    by rewrite (py_getitem_missing _ _ Hurl).
  - intros d url -> Hurl Hprefix Hcomma. unfold process_image, process_image_try.
    rewrite (py_getitem_dict _ _ _ Hurl). cbn [py_startswith mbind py_bind].
    rewrite Hprefix. cbn [py_split1 mbind py_bind].
    by rewrite (split1_missing _ _ Hcomma).
  - intros d url -> Hurl Hother. unfold process_image, process_image_try.
    rewrite (py_getitem_dict _ _ _ Hurl).
    destruct url as [| | | |s| |]; try done. by destruct (Hother s).
Qed.

Lemma process_image_failures_witness :
  process_image (PDict {[ "href" := PStr "http://a/b.png" ]})
  = Raise (ValueError "Invalid image data: 'url'") ∧
  process_image (PDict {[ "url" := PStr "data:image/png;base64" ]})
  = Raise (ValueError "Invalid image data: not enough values to unpack (expected 2, got 1)") ∧
  process_image (PDict {[ "url" := PNone ]})
  = Raise (ValueError "Invalid image data: 'NoneType' object has no attribute 'startswith'").
Proof.
  split; [|split].
  - eapply (process_image_failures (PDict {[ "href" := PStr "http://a/b.png" ]}));
      reflexivity.
  - eapply (process_image_failures (PDict {[ "url" := PStr "data:image/png;base64" ]}));
      reflexivity.
  - apply (proj2 (proj2 (proj2 (process_image_failures (PDict {[ "url" := PNone ]}))))
             {[ "url" := PNone ]} PNone); [reflexivity | reflexivity | discriminate].
Defined.

(** *** The outbound request *)

(** X4. The keys of an assembled request are exactly model, messages,
    max_tokens, temperature, top_k, top_p, stop_sequences and stream, plus
    system when the system content is a true value: no other key of the
    options bag is forwarded, in particular never user, chat_id or
    title. *)
Theorem request_has_only_its_keys rt V model_id messages body payload system_message turns :
  pop_system_message messages = Ret (system_message, turns) →
  assemble rt V model_id messages body = Ret payload →
  dom payload = (if py_truthy system_message then {["system"]} ∪ request_keys
                 else request_keys) ∧
  payload !! "user" = None ∧ payload !! "chat_id" = None ∧ payload !! "title" = None ∧
  (∀ k, is_Some (payload !! k) → k ∈ request_keys ∨ k = "system").
Proof.
  intros Hpop (system_message' & turns' & st & processed & Hpop' & _ & ->)%assemble_inv.
  rewrite Hpop in Hpop'. injection Hpop' as <- <-.
  assert (Hdom : dom (build_payload rt V model_id processed (clean_body body) system_message)
                 = (if py_truthy system_message then {["system"]} ∪ request_keys
                    else request_keys)).
  { unfold build_payload. destruct (py_truthy system_message).
    - rewrite dom_insert_L. f_equal.
    - reflexivity. }
  assert (Hkeys : ∀ k,
            is_Some (build_payload rt V model_id processed (clean_body body) system_message
                     !! k) → k ∈ request_keys ∨ k = "system").
  { intros k Hk%elem_of_dom. rewrite Hdom in Hk.
    destruct (py_truthy system_message); [|by left].
    apply elem_of_union in Hk as [Hk%elem_of_singleton | Hk]; [by right | by left]. }
  split; [done|].
  repeat split; [| | |done];
    (apply eq_None_not_Some; intros [Hk|Hk]%Hkeys; [|done];
     by vm_compute in Hk).
Qed.

Lemma request_has_only_its_keys_witness :
  ∃ payload,
    assemble ok_runtime (default_valves "") haiku
      [turn "system" (PStr "Be terse"); turn "user" (PStr "Hi")]
      {[ "user" := PStr "u1"; "chat_id" := PStr "c1"; "title" := PStr "t";
         "metadata" := PDict ∅; "max_tokens" := PInt 10 ]} = Ret payload ∧
    dom payload = {["system"]} ∪ request_keys ∧
    payload !! "user" = None ∧ payload !! "metadata" = None.
Proof.
  eexists. split; [reflexivity|].
  edestruct (request_has_only_its_keys ok_runtime (default_valves "") haiku
               [turn "system" (PStr "Be terse"); turn "user" (PStr "Hi")]
               {[ "user" := PStr "u1"; "chat_id" := PStr "c1"; "title" := PStr "t";
                  "metadata" := PDict ∅; "max_tokens" := PInt 10 ]})
    as (Hdom & Huser & _ & _ & Hkeys); [reflexivity | reflexivity |].
  split; [exact Hdom|]. split; [exact Huser|].
  apply eq_None_not_Some. intros [Hk|Hk]%Hkeys; [|done].
  by vm_compute in Hk.
Defined.

(** X5. The request depends on the options bag only through the six keys
    max_tokens, temperature, top_k, top_p, stop and stream: two bags that
    agree on them give the same request, or the same failure, whatever
    else they hold. *)
Theorem request_reads_six_options rt V model_id messages (body body' : gmap string pyval) :
  Forall (λ k, body !! k = body' !! k) option_keys →
  assemble rt V model_id messages body = assemble rt V model_id messages body'.
Proof.
  unfold option_keys. rewrite !Forall_cons.
  intros (Htokens & Htemperature & Htop_k & Htop_p & Hstop & Hstream & _).
  unfold assemble.
  destruct (pop_system_message messages) as [[system_message turns]|];
    cbn [mbind py_bind]; [|done].
  destruct (process_messages V counters0 turns) as [[st processed]|];
    cbn [mbind py_bind]; [|done].
  f_equal. unfold build_payload.
  rewrite !(clean_body_lookup body), !(clean_body_lookup body') by done.
  by rewrite Htokens, Htemperature, Htop_k, Htop_p, Hstop, Hstream.
Qed.

Lemma request_reads_six_options_witness :
  assemble ok_runtime (default_valves "") haiku [turn "user" (PStr "Hi")]
    {[ "temperature" := PFloat (1 # 2); "user" := PStr "u1"; "seed" := PInt 7 ]}
  = assemble ok_runtime (default_valves "") haiku [turn "user" (PStr "Hi")]
      {[ "temperature" := PFloat (1 # 2) ]}.
Proof.
  apply request_reads_six_options. repeat constructor.
Defined.

Lemma process_messages_roles V st messages st' processed :
  process_messages V st messages = Ret (st', processed) →
  Forall2 (λ message out,
             ∃ (d : gmap string pyval) role blocks,
               message = PDict d ∧ d !! "role" = Some role ∧
               out = PDict {[ "role" := role; "content" := PList blocks ]})
    messages processed.
Proof.
  revert st st' processed. induction messages as [|message messages IH];
    intros st st' processed.
  - intros [= <- <-]. constructor.
  - cbn [process_messages]. unfold process_message.
    destruct (normalize_content V st message) as [[st1 blocks]|] eqn:Hcontent;
      cbn [mbind py_bind]; [|done].
    destruct (py_getitem message "role") as [role|] eqn:Hrole; cbn [mbind py_bind];
      [|done].
    destruct (process_messages V st1 messages) as [[st2 more]|] eqn:Hrest;
      cbn [mbind py_bind]; [|done].
    intros [= <- <-]. constructor; [|by eapply IH].
    destruct message as [| | | | | |d]; try done.
    cbn [py_getitem] in Hrole. destruct (d !! "role") as [role'|] eqn:Hd; [|done].
    injection Hrole as ->. by exists d, role, blocks.
Qed.

(** X6. An assembled request carries the model identifier it was given
    and one processed turn per turn left after system extraction, in the
    same order and under the same role, each with a list of content
    blocks. *)
Theorem request_keeps_model_roles_and_order
    rt V model_id messages body payload system_message turns :
  pop_system_message messages = Ret (system_message, turns) →
  assemble rt V model_id messages body = Ret payload →
  payload !! "model" = Some model_id ∧
  ∃ processed,
    payload !! "messages" = Some (PList processed) ∧
    length processed = length turns ∧
    Forall2 (λ message out,
               ∃ (d : gmap string pyval) role blocks,
                 message = PDict d ∧ d !! "role" = Some role ∧
                 out = PDict {[ "role" := role; "content" := PList blocks ]})
      turns processed.
Proof.
  intros Hpop (system_message' & turns' & st & processed & Hpop' & Hrun & ->)%assemble_inv.
  rewrite Hpop in Hpop'. injection Hpop' as <- <-.
  apply process_messages_roles in Hrun.
  split; [by rewrite build_payload_other|].
  exists processed. rewrite build_payload_messages.
  repeat split; [|done]. symmetry. by eapply Forall2_length.
Qed.

Lemma request_keeps_model_roles_and_order_witness :
  ∃ payload,
    assemble ok_runtime (default_valves "") haiku
      [turn "system" (PStr "Be terse"); turn "user" (PStr "Hi");
       turn "assistant" (PStr "Hello"); turn "system" (PStr "late")] ∅ = Ret payload ∧
    payload !! "model" = Some haiku ∧
    ∃ processed, payload !! "messages" = Some (PList processed) ∧ length processed = 3%nat.
Proof.
  eexists. split; [reflexivity|].
  edestruct (request_keeps_model_roles_and_order ok_runtime (default_valves "") haiku
               [turn "system" (PStr "Be terse"); turn "user" (PStr "Hi");
                turn "assistant" (PStr "Hello"); turn "system" (PStr "late")] ∅)
    as (Hmodel & processed & Hmessages & Hlength & _); [reflexivity | reflexivity |].
  split; [exact Hmodel|]. exists processed. by split.
Defined.

(** *** The two decoders *)

(** X7. On a 200 answer whose body is a JSON object: the completion is
    the "text" of the first content block, whatever blocks follow; it is
    the empty string when the object has no "content" key or its content
    is an empty (false) value; and when the first block has no "text" key
    the completion is the error string of the missing key. *)
Theorem get_completion_first_text rt self payload r (result : gmap string pyval) :
  requests_post rt base_url (headers self) payload false = Response r →
  status_code r = 200 → json r = Ret (PDict result) →
  (∀ (first : gmap string pyval) text rest,
      result !! "content" = Some (PList (PDict first :: rest)) →
      first !! "text" = Some text →
      get_completion rt self payload = Ret text) ∧
  (result !! "content" = None → get_completion rt self payload = Ret (PStr "")) ∧
  (∀ content,
      result !! "content" = Some content → py_truthy content = false →
      get_completion rt self payload = Ret (PStr "")) ∧
  (∀ (first : gmap string pyval) rest,
      result !! "content" = Some (PList (PDict first :: rest)) →
      first !! "text" = None →
      get_completion rt self payload
      = Ret (PStr "Error getting completion: 'text'")).
Proof.
  intros Hpost Hstatus Hjson.
  unfold get_completion, get_completion_try.
  rewrite Hpost, Hstatus, Hjson. cbn [Z.eqb Pos.eqb negb mbind py_bind py_contains].
  split; [|split; [|split]].
  - intros first text rest Hcontent Htext.
    rewrite bool_decide_eq_true_2 by (by rewrite Hcontent).
    rewrite (py_getitem_dict _ _ _ Hcontent). cbn [mbind py_bind py_truthy py_getitem0].
    by rewrite (py_getitem_dict _ _ _ Htext).
  - intros Hcontent.
    rewrite bool_decide_eq_false_2; [done|].
    rewrite Hcontent. by intros [? ?].
  - intros content Hcontent Hfalse.
    rewrite bool_decide_eq_true_2 by (by rewrite Hcontent).
    rewrite (py_getitem_dict _ _ _ Hcontent). cbn [mbind py_bind].
    by rewrite Hfalse.
  - intros first rest Hcontent Htext.
    rewrite bool_decide_eq_true_2 by (by rewrite Hcontent).
    rewrite (py_getitem_dict _ _ _ Hcontent). cbn [mbind py_bind py_truthy py_getitem0].
    by rewrite (py_getitem_missing _ _ Htext).
Qed.

Lemma get_completion_first_text_witness :
  let answer (body : gmap string pyval) : runtime :=
    {| py_repr := λ _, "";
       requests_post := λ _ _ _ _,
         Response {| status_code := 200; text := ""; json := Ret (PDict body);
                     events := []; broken := None |} |} in
  get_completion
    (answer {[ "content" := PList [PDict {[ "type" := PStr "text"; "text" := PStr "Hello" ]};
                                   PDict {[ "text" := PStr "ignored" ]}] ]})
    (init "key") ∅ = Ret (PStr "Hello") ∧
  get_completion (answer {[ "content" := PList [] ]}) (init "key") ∅ = Ret (PStr "") ∧
  get_completion (answer {[ "id" := PStr "msg_1" ]}) (init "key") ∅ = Ret (PStr "") ∧
  get_completion (answer {[ "content" := PList [PDict {[ "type" := PStr "tool_use" ]}] ]})
    (init "key") ∅ = Ret (PStr "Error getting completion: 'text'").
Proof.
  intros answer. split; [|split; [|split]].
  - edestruct (get_completion_first_text
                 (answer {[ "content" :=
                              PList [PDict {[ "type" := PStr "text"; "text" := PStr "Hello" ]};
                                     PDict {[ "text" := PStr "ignored" ]}] ]})
                 (init "key") ∅) as (H & _); [reflexivity | reflexivity | reflexivity |].
    eapply H; reflexivity.
  - edestruct (get_completion_first_text (answer {[ "content" := PList [] ]})
                 (init "key") ∅) as (_ & _ & H & _);
      [reflexivity | reflexivity | reflexivity |].
    eapply H; reflexivity.
  - edestruct (get_completion_first_text (answer {[ "id" := PStr "msg_1" ]})
                 (init "key") ∅) as (_ & H & _);
      [reflexivity | reflexivity | reflexivity |].
    apply H. reflexivity.
  - edestruct (get_completion_first_text
                 (answer {[ "content" := PList [PDict {[ "type" := PStr "tool_use" ]}] ]})
                 (init "key") ∅) as (_ & _ & _ & H);
      [reflexivity | reflexivity | reflexivity |].
    eapply H; reflexivity.
Defined.

(** X8. A message_stop event ends the decoding wherever it stands: the
    events after it are not decoded and a transport failure after it is
    not reported; the result is that of the events before it on a stream
    that ends cleanly. *)
Theorem message_stop_ends_decoding pre fields post failure :
  consume (pre ++ message_stop fields :: post) failure = consume pre None.
Proof.
  induction pre as [|ev pre IH]; cbn [app consume].
  - by rewrite handle_message_stop.
  - destruct (handle_event ev) as [[chunk| |]|e]; [by rewrite IH | done..].
Qed.

Lemma consume_carried_app evs carried rest failure :
  Forall2 carries evs carried →
  consume (evs ++ rest) failure
  = {| chunks := carried ++ chunks (consume rest failure);
       escaped := escaped (consume rest failure) |}.
Proof.
  induction 1 as [|ev chunk evs carried Hev _ IH]; cbn [app].
  - by destruct (consume rest failure).
  - rewrite (consume_yield _ _ _ _ (handle_carries _ _ Hev)), IH. reflexivity.
Qed.

(** X9. Decoding composes: when the first events of a stream all carry
    text, the chunks are their texts in arrival order followed by the
    chunks of the rest of the stream, and the stream ends as the rest
    ends. *)
Theorem consume_valid_prefix evs carried rest failure :
  Forall2 carries evs carried →
  consume (evs ++ rest) failure
  = {| chunks := carried ++ chunks (consume rest failure);
       escaped := escaped (consume rest failure) |}.
Proof. apply consume_carried_app. Qed.

Lemma consume_valid_prefix_witness :
  consume ([content_block_start ∅ ∅ (PStr "a"); content_block_delta ∅ ∅ (PStr "b")]
           ++ [NotJSON "Expecting value"; content_block_delta ∅ ∅ (PStr "c")])
    (Some (HTTPFailure "reset"))
  = {| chunks := [PStr "a"; PStr "b"; PStr "c"];
       escaped := Some (HTTPFailure "reset") |}.
Proof.
  apply (consume_valid_prefix
           [content_block_start ∅ ∅ (PStr "a"); content_block_delta ∅ ∅ (PStr "b")]
           [PStr "a"; PStr "b"]).
  repeat constructor.
Defined.

(** X10. Event data that is valid JSON but not an object is a different
    matter from a malformed event: the subscript raises a [TypeError] that
    the handlers of the loop do not catch, so after the chunks of the
    valid events before it the generator yields one error chunk and ends;
    no later event is decoded. *)
Theorem non_object_event_aborts rt self payload r evs carried data rest :
  requests_post rt base_url (headers self) payload true = Response r →
  status_code r = 200 →
  events r = evs ++ JSON data :: rest →
  Forall2 carries evs carried →
  (∀ d, data ≠ PDict d) →
  ∃ msg,
    stream_response rt self payload
    = {| chunks := carried ++ [PStr ("Error during streaming: " +:+ msg)];
         escaped := None |}.
Proof.
  intros Hpost Hstatus Hevents Hcarried Hdata.
  unfold stream_response, stream_response_try.
  rewrite Hpost, Hstatus, Hevents. cbn [Z.eqb Pos.eqb negb].
  rewrite (consume_carried_app _ _ _ _ Hcarried).
  destruct (non_object_event_ends_stream data rest (broken r) Hdata) as (e & -> & _).
  exists (str_exn e). unfold yield_except. cbn [chunks escaped].
  by rewrite app_nil_r.
Qed.

Lemma non_object_event_aborts_witness :
  let r := {| status_code := 200; text := ""; json := Ret PNone;
              events := [content_block_delta ∅ ∅ (PStr "a")]
                        ++ JSON PNone :: [content_block_delta ∅ ∅ (PStr "b")];
              broken := None |} in
  let rt := {| py_repr := λ _, ""; requests_post := λ _ _ _ _, Response r |} in
  ∃ msg,
    stream_response rt (init "key") ∅
    = {| chunks := [PStr "a"] ++ [PStr ("Error during streaming: " +:+ msg)];
         escaped := None |}.
Proof.
  intros r rt.
  apply (non_object_event_aborts rt (init "key") ∅ r
           [content_block_delta ∅ ∅ (PStr "a")] [PStr "a"] PNone
           [content_block_delta ∅ ∅ (PStr "b")]);
    [reflexivity | reflexivity | reflexivity | repeat constructor | discriminate].
Defined.

Lemma consume_length evs failure :
  (length (chunks (consume evs failure)) ≤ length evs)%nat.
Proof.
  induction evs as [|ev evs IH]; cbn [consume]; [done|].
  destruct (handle_event ev) as [[chunk| |]|e]; cbn [chunks yield_then length]; lia.
Qed.

(** X11. The generator never yields more chunks than the upstream sent
    events, plus one for the error chunk; on a stream that was refused or
    could not be opened it yields exactly one chunk. *)
Theorem stream_response_bounded rt self payload :
  match requests_post rt base_url (headers self) payload true with
  | Failed _ => length (chunks (stream_response rt self payload)) = 1%nat
  | Response r =>
      if status_code r =? 200
      then (length (chunks (stream_response rt self payload)) ≤ length (events r) + 1)%nat
      else length (chunks (stream_response rt self payload)) = 1%nat
  end.
Proof.
  unfold stream_response, stream_response_try.
  destruct (requests_post rt base_url (headers self) payload true) as [e|r]; [done|].
  destruct (status_code r =? 200); cbn [negb]; [|done].
  pose proof (consume_length (events r) (broken r)) as Hlength.
  unfold yield_except.
  destruct (escaped (consume (events r) (broken r))); cbn [chunks]; [|lia].
  rewrite length_app. cbn [length]. lia.
Qed.

(** *** More on the limits *)

Lemma check_images_urls V st sources :
  Forall (λ source, ∃ url, source = Url url) sources →
  image_count st + Z.of_nat (length sources) ≤ MAX_IMAGES V →
  ∃ st', check_images V st sources = Ret st'.
Proof.
  intros Hurls. revert st.
  induction Hurls as [|source sources [url ->] _ IH]; intros st Hcount; [by eexists|].
  cbn [check_images length] in *.
  destruct (Z.leb_spec (MAX_IMAGES V) (image_count st)); [lia|].
  apply IH. cbn [image_count]. lia.
Qed.

(** X12. The size ceiling only concerns inlined images.  A well-formed
    call without any image item is assembled whatever the two limits are,
    even with a maximum of zero images; and a well-formed call whose
    images are all given by URL, at most MAX_IMAGES of them, is assembled
    whatever the size ceiling is, even zero. *)
Theorem limits_spare_text_and_urls rt V model_id messages body system_message msgs turns :
  pop_system_message messages = Ret (system_message, msgs) →
  Forall2 views_turn msgs turns →
  (turn_images turns = [] →
     assemble rt V model_id messages body
     = Ret (build_payload rt V model_id (map normalized turns) (clean_body body)
              system_message)) ∧
  (Forall (λ source, ∃ url, source = Url url) (turn_images turns) →
     Z.of_nat (length (image_items msgs)) ≤ MAX_IMAGES V →
     assemble rt V model_id messages body
     = Ret (build_payload rt V model_id (map normalized turns) (clean_body body)
              system_message)).
Proof.
  intros Hpop Hviews. unfold assemble. rewrite Hpop. cbn [mbind py_bind].
  rewrite (process_messages_views _ _ _ _ Hviews). split.
  - by intros ->.
  - intros Hurls Hcount.
    pose proof (Forall2_length _ _ _ Hviews) as Hlength.
    destruct (check_images_urls V counters0 (turn_images turns) Hurls) as [st ->];
      [|done].
    cbn [image_count counters0]. rewrite <- (image_items_length _ _ Hviews). lia.
Qed.

Lemma limits_spare_text_and_urls_witness :
  (∃ payload,
     assemble ok_runtime (valves (with_limits 0 0)) haiku
       [turn "user" (PList [text_item "Hi"])] ∅ = Ret payload) ∧
  (∃ payload,
     assemble ok_runtime (valves (with_limits 1 0)) haiku
       [turn "user" (PList [url_item "https://a/1.png"])] ∅ = Ret payload).
Proof.
  split.
  - destruct (limits_spare_text_and_urls ok_runtime (valves (with_limits 0 0)) haiku
                [turn "user" (PList [text_item "Hi"])] ∅ PNone
                [turn "user" (PList [text_item "Hi"])]
                [(PStr "user", [TextItem (PStr "Hi")])]) as [Htext _]; [reflexivity | |].
    + constructor; [|constructor]. apply views_turn_items.
      constructor; [|constructor]. unfold text_item. by eapply views_text.
    + eexists. by apply Htext.
  - destruct (limits_spare_text_and_urls ok_runtime (valves (with_limits 1 0)) haiku
                [turn "user" (PList [url_item "https://a/1.png"])] ∅ PNone
                [turn "user" (PList [url_item "https://a/1.png"])]
                [(PStr "user", [ImageItem (Url (PStr "https://a/1.png"))])])
      as [_ Hurls]; [reflexivity | |].
    + repeat constructor. apply views_turn_items.
      repeat constructor. by apply views_url_item.
    + eexists. apply Hurls; [|by vm_compute].
      repeat constructor. by eexists.
Defined.

(** *** The entry point, once more *)

(** X13. Which decoder answers is decided by the truth value of the
    caller's "stream" option, not by its type: any true value (True, a
    non-zero number, a non-empty string) returns the generator, and a
    missing option or any false value (False, 0, "", None) returns the
    completion. *)
Theorem stream_option_truth_value rt self user_message model_id messages body payload :
  assemble rt (valves self) model_id messages body = Ret payload →
  pipe rt self user_message model_id messages body
  = if py_truthy (default (PBool false) (body !! "stream"))
    then Ret (Stream (stream_response rt self payload))
    else completion ← get_completion rt self payload; Ret (Text completion).
Proof.
  intros Hassembled. rewrite (pipe_dispatch _ _ _ _ _ _ _ Hassembled).
  apply assemble_inv in Hassembled
    as (system_message & turns & st & processed & _ & _ & ->).
  unfold wants_stream. rewrite build_payload_other by done.
  rewrite <- (clean_body_lookup body "stream") by done.
  reflexivity.
Qed.

Lemma stream_option_truth_value_witness :
  (∃ g, pipe ok_runtime (init "key") "Hi" haiku [turn "user" (PStr "Hi")]
          {[ "stream" := PStr "yes" ]} = Ret (Stream g)) ∧
  pipe ok_runtime (init "key") "Hi" haiku [turn "user" (PStr "Hi")]
    {[ "stream" := PInt 0 ]} = Ret (Text (PStr "ok")).
Proof.
  split.
  - eexists.
    erewrite (stream_option_truth_value ok_runtime (init "key") "Hi" haiku
                [turn "user" (PStr "Hi")] {[ "stream" := PStr "yes" ]});
      reflexivity.
  - erewrite (stream_option_truth_value ok_runtime (init "key") "Hi" haiku
                [turn "user" (PStr "Hi")] {[ "stream" := PInt 0 ]});
      reflexivity.
Defined.

(** X14. A first turn that is an object without a "role" key makes the
    call return "Error: 'role'", and a first turn with role "system" but
    without a "content" key makes it return "Error: 'content'"; in both
    cases nothing is sent. *)
Theorem first_turn_missing_key rt self user_message model_id
    (d : gmap string pyval) rest body :
  (d !! "role" = None →
     assemble rt (valves self) model_id (PDict d :: rest) body
     = Raise (KeyError "'role'") ∧
     pipe rt self user_message model_id (PDict d :: rest) body
     = Ret (Text (PStr "Error: 'role'"))) ∧
  (d !! "role" = Some (PStr "system") → d !! "content" = None →
     assemble rt (valves self) model_id (PDict d :: rest) body
     = Raise (KeyError "'content'") ∧
     pipe rt self user_message model_id (PDict d :: rest) body
     = Ret (Text (PStr "Error: 'content'"))).
Proof.
  split.
  - intros Hrole.
    assert (Hfail : assemble rt (valves self) model_id (PDict d :: rest) body
                    = Raise (KeyError "'role'")).
    { unfold assemble, pop_system_message. by rewrite (py_getitem_missing _ _ Hrole). }
    split; [done|]. by rewrite (pipe_validation_failure _ _ _ _ _ _ _ Hfail).
  - intros Hrole Hcontent.
    assert (Hfail : assemble rt (valves self) model_id (PDict d :: rest) body
                    = Raise (KeyError "'content'")).
    { unfold assemble, pop_system_message.
      rewrite (py_getitem_dict _ _ _ Hrole). cbn [mbind py_bind py_eq_str].
      by rewrite (py_getitem_missing _ _ Hcontent). }
    split; [done|]. by rewrite (pipe_validation_failure _ _ _ _ _ _ _ Hfail).
Qed.

Lemma first_turn_missing_key_witness :
  pipe ok_runtime (init "key") "Hi" haiku [PDict {[ "content" := PStr "Hi" ]}] ∅
  = Ret (Text (PStr "Error: 'role'")) ∧
  pipe ok_runtime (init "key") "Hi" haiku [PDict {[ "role" := PStr "system" ]}] ∅
  = Ret (Text (PStr "Error: 'content'")).
Proof.
  split.
  - apply (first_turn_missing_key ok_runtime (init "key") "Hi" haiku
             {[ "content" := PStr "Hi" ]} [] ∅). reflexivity.
  - apply (first_turn_missing_key ok_runtime (init "key") "Hi" haiku
             {[ "role" := PStr "system" ]} [] ∅); reflexivity.
Defined.

(** *** The cached headers *)

Lemma process_items_same_limits self key st items :
  process_items (valves (set_api_key self key)) st items
  = process_items (valves self) st items.
Proof.
  revert st. induction items as [|item items IH]; intros st; [done|].
  cbn [process_items].
  change (process_item (valves (set_api_key self key)) st item)
    with (process_item (valves self) st item).
  destruct (process_item (valves self) st item) as [[st1 blocks]|]; cbn [mbind py_bind];
    [|done].
  by rewrite IH.
Qed.

Lemma process_messages_same_limits self key st messages :
  process_messages (valves (set_api_key self key)) st messages
  = process_messages (valves self) st messages.
Proof.
  revert st. induction messages as [|message messages IH]; intros st; [done|].
  cbn [process_messages].
  assert (Hmessage : process_message (valves (set_api_key self key)) st message
                     = process_message (valves self) st message).
  { unfold process_message, normalize_content.
    destruct (py_get message "content" PNone) as [[| | | | |items|]|]; try done.
    cbn [mbind py_bind]. by rewrite process_items_same_limits. }
  rewrite Hmessage.
  destruct (process_message (valves self) st message) as [[st1 processed]|];
    cbn [mbind py_bind]; [|done].
  by rewrite IH.
Qed.

(** X15. The API key reaches the upstream only through the cached
    headers.  Storing another key in the valves changes nothing in what
    [pipe] does until the headers are rebuilt: the same request goes out
    with the same headers.  Rebuilding them ([on_valves_updated]) sets
    "x-api-key" to the stored key, leaves the version and content-type
    headers as they were built at start, and leaves the valves alone. *)
Theorem api_key_only_through_headers rt self key user_message model_id messages body :
  pipe rt (set_api_key self key) user_message model_id messages body
  = pipe rt self user_message model_id messages body ∧
  headers (on_valves_updated (set_api_key self key))
  = <["x-api-key" := key]> (headers (init "")) ∧
  valves (on_valves_updated (set_api_key self key)) = valves (set_api_key self key).
Proof.
  split; [|done].
  unfold pipe, pipe_try.
  assert (Hassemble : assemble rt (valves (set_api_key self key)) model_id messages body
                      = assemble rt (valves self) model_id messages body).
  { unfold assemble.
    destruct (pop_system_message messages) as [[system_message turns]|];
      cbn [mbind py_bind]; [|done].
    by rewrite process_messages_same_limits. }
  by rewrite Hassemble.
Qed.

(** *** From the call to the answer *)

(** X16. End to end, without streaming: for a well-formed call without
    images and without a true "stream" option, against an upstream that
    answers 200 with a JSON object whose first content block has a text,
    [pipe] returns that text, whatever the limits and the other options
    are. *)
Theorem pipe_returns_first_text rt self user_message model_id messages body
    system_message msgs turns r (result first : gmap string pyval) text rest :
  pop_system_message messages = Ret (system_message, msgs) →
  Forall2 views_turn msgs turns →
  turn_images turns = [] →
  py_truthy (default (PBool false) (body !! "stream")) = false →
  (∀ payload, requests_post rt base_url (headers self) payload false = Response r) →
  status_code r = 200 →
  json r = Ret (PDict result) →
  result !! "content" = Some (PList (PDict first :: rest)) →
  first !! "text" = Some text →
  pipe rt self user_message model_id messages body = Ret (Text text).
Proof.
  intros Hpop Hviews Himages Hstream Hpost Hstatus Hjson Hcontent Htext.
  assert (Hassembled :
            assemble rt (valves self) model_id messages body
            = Ret (build_payload rt (valves self) model_id (map normalized turns)
                     (clean_body body) system_message)).
  { unfold assemble. rewrite Hpop. cbn [mbind py_bind].
    by rewrite (process_messages_views _ _ _ _ Hviews), Himages. }
  rewrite (pipe_dispatch _ _ _ _ _ _ _ Hassembled).
  unfold wants_stream. rewrite build_payload_other by done.
  assert (Hflag : build_payload rt (valves self) model_id (map normalized turns)
                    (clean_body body) PNone !! "stream"
                  = Some (default (PBool false) (body !! "stream"))).
  { rewrite <- (clean_body_lookup body "stream") by done. reflexivity. }
  rewrite Hflag.
  change (default PNone (Some ?v)) with v. rewrite Hstream.
  unfold get_completion, get_completion_try.
  rewrite Hpost, Hstatus, Hjson. cbn [Z.eqb Pos.eqb negb mbind py_bind py_contains].
  rewrite bool_decide_eq_true_2 by (by rewrite Hcontent).
  rewrite (py_getitem_dict _ _ _ Hcontent). cbn [mbind py_bind py_truthy py_getitem0].
  by rewrite (py_getitem_dict _ _ _ Htext).
Qed.

Lemma pipe_returns_first_text_witness :
  pipe ok_runtime (with_limits 0 0) "Hi" haiku
    [turn "system" (PStr "Be terse"); turn "user" (PStr "Hi")]
    {[ "user" := PStr "u1"; "temperature" := PFloat (1 # 5) ]}
  = Ret (Text (PStr "ok")).
Proof.
  eapply (pipe_returns_first_text ok_runtime (with_limits 0 0) "Hi" haiku
            [turn "system" (PStr "Be terse"); turn "user" (PStr "Hi")]
            {[ "user" := PStr "u1"; "temperature" := PFloat (1 # 5) ]}
            (PStr "Be terse") [turn "user" (PStr "Hi")]
            [(PStr "user", [TextItem (PStr "Hi")])] ok_response);
    [reflexivity | | reflexivity | reflexivity | reflexivity | reflexivity
     | reflexivity | reflexivity | reflexivity].
  constructor; [|constructor]. unfold turn. by eapply views_plain.
Defined.
